(** * openquake.baselib.workerpool: a shallow embedding

    The module [workerpool.py] distributes function calls over pools of
    worker processes.  Its four parts are embedded here as they are
    written: the submission generator [_starmap], the control-plane client
    [WorkerMaster], the per-host supervisor [WorkerPool] and the loop run
    by each worker process.

    Python code that only talks to the operating system (sockets,
    processes, signals, printing) is modelled by the trace of the calls it
    makes; what the operating system answers is read from an environment
    [Env].  A blocking receive that is never answered is the outcome
    [Block]; a Python exception is the outcome [Raise]. *)

From stdpp Require Import base numbers list strings pretty functions.

Local Open Scope string_scope.
Local Open Scope Z_scope.

(** ** Values that travel between the processes *)

Definition url := string.

(** A memory address of a Python object (the identity of a Monitor). *)
Definition loc := nat.

(** The collaborator [Monitor]: a mutable record of which this module
    only touches the attribute [backurl]. *)
Record Monitor := mkMonitor { operation : string; backurl : url }.

Definition set_backurl (u : url) (m : Monitor) : Monitor :=
  {| operation := operation m; backurl := u |}.

(** Payload values of a task. The payload is opaque to this module. *)
Inductive value :=
| VNone
| VInt (n : Z)
| VStr (s : string).

(** What a call of a task's callable does: it returns or it raises. *)
Inductive call_outcome :=
| Returned (v : value)
| Raised (etype emsg : string).

(** A callable: its [__name__] and its behaviour on the unpacked
    arguments (the positional values and the Monitor that ends them). *)
Record callable := mkCallable {
  func_name : string;
  func_call : list value → Monitor → call_outcome
}.

(** The argument tuple [args] in the submitting process: [args[-1]] is a
    Monitor instance, held by reference. *)
Record task_args := mkArgs { positional : list value; monitor : loc }.

(** Modelled from the spec: the [TaskResult] that [parallel.safely_call]
    builds (module [parallel] is not part of the sources at hand): either
    a success payload or a captured-failure record with the error kind,
    the message and the originating task identity. *)
Inductive TaskResult :=
| Success (payload : value)
| Failure (kind message : string) (task : string).

(** Objects sent through a zmq socket. Sending pickles the object: a task
    carries a copy of its Monitor as it is at the time of the send. *)
Inductive message :=
| MStr (s : string)
| MInt (n : Z)
| MTask (func : callable) (args : list value) (mon : Monitor)
| MResult (r : TaskResult).

(** ** Calls to the operating system *)

Inductive pattern := PUSH | PULL | REQ | REP.
Inductive mode := bind_mode | connect_mode.
Inductive signal := SIGINT | SIGTERM.

Inductive event :=
| EvOpen (u : url) (p : pattern) (m : mode)
| EvClose (u : url) (p : pattern)
| EvSend (u : url) (m : message)
| EvRecv (m : message)
| EvTcpSocket
| EvConnectEx (host : string) (port : Z) (err : Z)
| EvTcpClose
| EvPrint (s : string)
| EvPopen (argv : list string)
| EvSpawn (pid : Z)
| EvKill (pid : Z) (s : signal)
| EvProcTitle (s : string).

(** What the surroundings answer. The answers that may change while the
    program runs are indexed by the number of answers given before. *)
Class Env := {
  cpu_count : Z;
  getpid : Z;
  sys_executable : string;
  (** [int(s)]; [None] when Python raises [ValueError] *)
  py_int : string → option Z;
  (** error indicator of [connect_ex((host, port))] *)
  connect_ex : nat → string → Z → Z;
  (** process id of a started [multiprocessing.Process] *)
  proc_pid : nat → Z;
  (** the address a bound socket discovers for itself *)
  true_end_point : url → url;
  (** the reply that a REQ socket gets for a request *)
  req_reply : nat → url → string → string
}.

(** ** The state of one process and the monad of its code *)

Inductive exn :=
| UnboundLocalError (var : string)
| IndexError
| ValueError
| TypeError
| AttributeError (attr : string).

Inductive res (A : Type) :=
| Ok (a : A)
| Raise (e : exn)
| Block.
Arguments Ok {A} a.
Arguments Raise {A} e.
Arguments Block {A}.

(** [objs] is the part of the Python heap that the code mutates, [trace]
    the calls made so far, [ticks] the number of answers taken from the
    environment, [inbox] the messages that will arrive, in this order, on
    the socket the process receives from. *)
Record world (O : Type) := mkWorld {
  objs : O;
  trace : list event;
  ticks : nat;
  inbox : list message
}.
Arguments mkWorld {O} objs trace ticks inbox.
Arguments objs {O} w.
Arguments trace {O} w.
Arguments ticks {O} w.
Arguments inbox {O} w.

Definition M (O A : Type) : Type := world O → res A * world O.

Definition ret {O A} (a : A) : M O A := λ w, (Ok a, w).

Definition bind {O A B} (m : M O A) (k : A → M O B) : M O B :=
  λ w, match m w with
       | (Ok a, w') => k a w'
       | (Raise e, w') => (Raise e, w')
       | (Block, w') => (Block, w')
       end.

Notation "'let!' x ':=' m 'in' k" := (bind m (λ x, k))
  (at level 10, x pattern, m at level 100, k at level 200,
   format "'[v' 'let!'  x  ':='  m  'in' '/' k ']'").
Notation "'do!' m 'in' k" := (bind m (λ _, k))
  (at level 10, m at level 100, k at level 200,
   format "'[v' 'do!'  m  'in' '/' k ']'").

Definition raise {O A} (e : exn) : M O A := λ w, (Raise e, w).

Definition emit {O} (e : event) : M O unit :=
  λ w, (Ok (), mkWorld (objs w) (trace w ++ [e]) (ticks w) (inbox w)).

(** Take the next answer of the environment. *)
Definition tick {O} : M O nat :=
  λ w, (Ok (ticks w), mkWorld (objs w) (trace w) (S (ticks w)) (inbox w)).

Definition get_objs {O} : M O O := λ w, (Ok (objs w), w).

Definition put_objs {O} (o : O) : M O unit :=
  λ w, (Ok (), mkWorld o (trace w) (ticks w) (inbox w)).

(** A blocking receive: the next message if one arrives, else the process
    waits for ever. *)
Definition recv {O} : M O message :=
  λ w, match inbox w with
       | [] => (Block, w)
       | m :: rest =>
           (Ok m, mkWorld (objs w) (trace w ++ [EvRecv m]) (ticks w) rest)
       end.

(** [try: body finally: fin]. The finaliser runs when the body returns
    and when it raises; a body that blocks never reaches it. *)
Definition try_finally {O A} (body : M O A) (fin : M O unit) : M O A :=
  λ w, match body w with
       | (Ok a, w') => (do! fin in ret a) w'
       | (Raise e, w') => (do! fin in raise e) w'
       | (Block, w') => (Block, w')
       end.

(** [with z.Socket(u, p, m) as s: body]. *)
Definition with_socket {O A} (u : url) (p : pattern) (m : mode)
    (body : M O A) : M O A :=
  do! emit (EvOpen u p m) in
  try_finally body (emit (EvClose u p)).

(** The world after some more calls, a number of answers taken and the
    messages [rest] still to arrive. *)
Definition advance {O} (w : world O) (evs : list event) (answers : nat)
    (rest : list message) : world O :=
  mkWorld (objs w) (trace w ++ evs) (ticks w + answers) rest.

(** Observations on a trace: the messages sent, the messages received,
    the processes started and the programs launched, in order. *)
Definition sends (tr : list event) : list (url * message) :=
  omap (λ e, match e with EvSend u m => Some (u, m) | _ => None end) tr.

Definition recvs (tr : list event) : list message :=
  omap (λ e, match e with EvRecv m => Some m | _ => None end) tr.

Definition spawned (tr : list event) : list Z :=
  omap (λ e, match e with EvSpawn p => Some p | _ => None end) tr.

Definition launches (tr : list event) : list (list string) :=
  omap (λ e, match e with EvPopen argv => Some argv | _ => None end) tr.

(** [xs[i]] *)
Definition getitem {O A} (xs : list A) (i : nat) : M O A :=
  match xs !! i with
  | Some x => ret x
  | None => raise IndexError
  end.

(** [for x in xs: body x]. *)
Fixpoint for_each {O A} (xs : list A) (body : A → M O unit) : M O unit :=
  match xs with
  | [] => ret ()
  | x :: rest => do! body x in for_each rest body
  end.

(** How the body of a loop ends: it falls through to the next
    iteration, or it leaves the loop by [break]. *)
Inductive ctl := Continue | Break.

Definition block {O A} : M O A := λ w, (Block, w).

(** [for x in sock: body x]: every iteration receives one message and
    runs the body on it. The loop counts down the messages still to
    arrive: when there is none left the process waits in the receive for
    ever. *)
Fixpoint for_pending {O} (body : message → M O ctl)
    (pending : list message) : M O unit :=
  match pending with
  | [] => block
  | _ :: rest =>
      let! x := recv in
      let! c := body x in
      match c with
      | Break => ret ()
      | Continue => for_pending body rest
      end
  end.

Definition for_socket {O} (body : message → M O ctl) : M O unit :=
  λ w, for_pending body (inbox w) w.

(** [m == s] for a received object [m] and a string literal [s]. *)
Definition msg_eq (m : message) (s : string) : bool :=
  match m with
  | MStr s' => bool_decide (s' = s)
  | _ => false
  end.

(** ** The task submission protocol *)

Module Starmap.

(** The Monitor objects of the submitting process, by address. Two
    argument tuples may end with the same Monitor object. *)
Definition heap := loc → Monitor.

(** [args[-1].backurl = u] *)
Definition setattr_backurl (l : loc) (u : url) : M heap unit :=
  let! h := get_objs in
  put_objs (<[l := set_backurl u (h l)]> h).

(** [sender.send((func, args))]: the pair is pickled, Monitor included,
    and pushed. *)
Definition send_task (sender : url) (func : callable) (args : task_args)
    : M heap unit :=
  let! h := get_objs in
  emit (EvSend sender (MTask func (positional args) (h (monitor args)))).

(** The loop [for args in iterargs] with its counter [n]. *)
Fixpoint submit (func : callable) (sender : url) (end_point : url)
    (iterargs : list task_args) (n : nat) : M heap nat :=
  match iterargs with
  | [] => ret n
  | args :: rest =>
      do! setattr_backurl (monitor args) end_point in
      do! send_task sender func args in
      submit func sender end_point rest (S n)
  end.

(** The call that pushes the tuple [a], as it is pickled when the
    Monitors of the heap [h] are stamped with the reply address [ep]. *)
Definition task_sent (func : callable) (sender ep : url) (h : heap)
    (a : task_args) : event :=
  EvSend sender (MTask func (positional a) (set_backurl ep (h (monitor a)))).

(** The generator object: where its frame is suspended. [Suspended k] is
    a frame stopped at a [yield] inside both [with] blocks, with [k]
    iterations of [for _ in range(n)] still to run. *)
Inductive generator :=
| Created (func : callable) (iterargs : list task_args)
    (task_in_url receiver_url : url)
| Suspended (k : nat) (task_in_url receiver_url : url)
| Finished.

(** Calling a generator function runs none of its body. *)
Definition _starmap (func : callable) (iterargs : list task_args)
    (task_in_url receiver_url : url) : generator :=
  Created func iterargs task_in_url receiver_url.

(** [next(g)]: run the frame up to its next [yield]. [None] is
    [StopIteration]. *)
Definition next `{Env} (g : generator) : M heap (option message * generator) :=
  match g with
  | Created func iterargs task_in_url receiver_url =>
      do! emit (EvOpen receiver_url PULL bind_mode) in
      do! emit (EvOpen task_in_url PUSH connect_mode) in
      let! n := submit func task_in_url (true_end_point receiver_url)
                  iterargs 0 in
      ret (Some (MInt (Z.of_nat n)), Suspended n task_in_url receiver_url)
  | Suspended (S k) task_in_url receiver_url =>
      let! obj := recv in
      ret (Some obj, Suspended k task_in_url receiver_url)
  | Suspended O task_in_url receiver_url =>
      do! emit (EvClose task_in_url PUSH) in
      do! emit (EvClose receiver_url PULL) in
      ret (None, Finished)
  | Finished => ret (None, Finished)
  end.

(** A caller that asks for [k] more items by [k] calls of [next], and
    stops early when the generator is exhausted. *)
Fixpoint islice `{Env} (k : nat) (g : generator)
    : M heap (list message * generator) :=
  match k with
  | O => ret ([], g)
  | S k' =>
      let! r := next g in
      match r with
      | (Some v, g') =>
          let! r' := islice k' g' in
          ret (v :: r'.1, r'.2)
      | (None, g') => ret ([], g')
      end
  end.

End Starmap.

(** ** The control-plane client *)

Module WorkerMaster.

(** The attributes set by [__init__]; [host_cores] holds the pairs
    [[host, cores]] that [hc.split()] gives, the cores still a string. *)
Record master := mkMaster {
  task_in_url : url;
  task_out_url : url;
  ctrl_port : Z;
  host_cores : list (string * string);
  remote_python : string
}.

(** One pass of the loop of [status]: open a TCP socket, try to
    connect, close the socket whatever happened, and return [err]. *)
Definition probe `{Env} (self : master) (host : string) : M unit Z :=
  do! emit EvTcpSocket in
  try_finally
    (let! t := tick in
     let err := connect_ex t host (ctrl_port self) in
     do! emit (EvConnectEx host (ctrl_port self) err) in
     ret err)
    (emit EvTcpClose).

(** ['not-running' if err else 'running'] *)
Definition verdict (err : Z) : string :=
  if bool_decide (err ≠ 0) then "not-running" else "running".

Fixpoint status_loop `{Env} (self : master) (hcs : list (string * string))
    (lst : list (string * string)) : M unit (list (string * string)) :=
  match hcs with
  | [] => ret lst
  | (host, _) :: rest =>
      let! err := probe self host in
      status_loop self rest (lst ++ [(host, verdict err)])
  end.

(** The entries of [host_cores] that [status] looks at: all of them, or
    those whose host is the given one. *)
Definition selected (self : master) (host : option string)
    : list (string * string) :=
  match host with
  | None => host_cores self
  | Some h => filter (λ hc, hc.1 = h) (host_cores self)
  end.

(** [status(host=None)] *)
Definition status `{Env} (self : master) (host : option string)
    : M unit (list (string * string)) :=
  status_loop self (selected self host) [].

(** ['tcp://%s:%s' % (host, self.ctrl_port)] *)
Definition ctrl_url_of (self : master) (host : string) : url :=
  "tcp://" +:+ host +:+ ":" +:+ pretty (ctrl_port self).

(** The loop of [start]; [ctrl_url] is the local variable of that name,
    [None] as long as no assignment has bound it. *)
Fixpoint start_loop `{Env} (self : master) (hcs : list (string * string))
    (ctrl_url : option url) : M unit (option url) :=
  match hcs with
  | [] => ret ctrl_url
  | (host, cores) :: rest =>
      let! st := status self (Some host) in
      let! st0 := getitem st 0 in
      if bool_decide (st0.2 = "running") then
        do! emit (EvPrint (host +:+ " already running")) in
        start_loop self rest ctrl_url
      else
        let ctrl_url' := ctrl_url_of self host in
        let args :=
          ((if bool_decide (host = "127.0.0.1") then [sys_executable]
            else ["ssh"; host; remote_python self])
           ++ ["-m"; "openquake.baselib.workerpool";
               ctrl_url'; task_out_url self; cores])%list in
        do! emit (EvPrint ("starting " +:+ String.concat " " args)) in
        do! emit (EvPopen args) in
        start_loop self rest (Some ctrl_url')
  end.

Definition start `{Env} (self : master) : M unit string :=
  let! ctrl_url := start_loop self (host_cores self) None in
  match ctrl_url with
  | Some u => ret (u +:+ " started")
  | None => raise (UnboundLocalError "ctrl_url")
  end.

(** [sock.send(cmd)] on a REQ socket: send the request, wait for the
    reply of the pool and return it. *)
Definition req_send `{Env} (u : url) (cmd : string) : M unit string :=
  do! emit (EvSend u (MStr cmd)) in
  let! t := tick in
  ret (req_reply t u cmd).

Definition stop `{Env} (self : master) : M unit string :=
  do! for_each (host_cores self) (λ hc,
        let host := hc.1 in
        let! st := status self (Some host) in
        let! st0 := getitem st 0 in
        if bool_decide (st0.2 = "not-running") then
          emit (EvPrint (host +:+ " not running"))
        else
          let ctrl_url := ctrl_url_of self host in
          with_socket ctrl_url REQ connect_mode
            (let! reply := req_send ctrl_url "stop" in
             emit (EvPrint reply))) in
  ret "stopped".

Definition kill `{Env} (self : master) : M unit string :=
  do! for_each (host_cores self) (λ hc,
        let host := hc.1 in
        let! st := status self (Some host) in
        let! st0 := getitem st 0 in
        if bool_decide (st0.2 = "not-running") then
          emit (EvPrint (host +:+ " not running"))
        else
          let ctrl_url := ctrl_url_of self host in
          with_socket ctrl_url REQ connect_mode
            (let! reply := req_send ctrl_url "kill" in
             emit (EvPrint reply))) in
  ret "killed".

(** The body that the loops of [stop] and [kill] share; the two differ
    in the command only. *)
Definition send_command `{Env} (self : master) (cmd : string)
    (hc : string * string) : M unit unit :=
  let host := hc.1 in
  let! st := status self (Some host) in
  let! st0 := getitem st 0 in
  if bool_decide (st0.2 = "not-running") then
    emit (EvPrint (host +:+ " not running"))
  else
    let ctrl_url := ctrl_url_of self host in
    with_socket ctrl_url REQ connect_mode
      (let! reply := req_send ctrl_url cmd in
       emit (EvPrint reply)).

(** The calls of one liveness probe made when [t] answers have been
    taken from the environment. *)
Definition probe_events `{Env} (self : master) (t : nat) (host : string)
    : list event :=
  [EvTcpSocket;
   EvConnectEx host (ctrl_port self) (connect_ex t host (ctrl_port self));
   EvTcpClose].

(** The calls and the result of probing the entries [hcs] one after the
    other, from the answer number [t] on. *)
Definition probes `{Env} (self : master) (t : nat)
    (hcs : list (string * string)) : list event :=
  concat (imap (λ i hc, probe_events self (t + i) hc.1) hcs).

Definition probed `{Env} (self : master) (t : nat)
    (hcs : list (string * string)) : list (string * string) :=
  imap (λ i hc, (hc.1, verdict (connect_ex (t + i) hc.1 (ctrl_port self))))
    hcs.

(** What sending the command [cmd] to the hosts [hosts] is expected to
    do, from the answer number [t] on. Each host is probed (with every
    entry of the same name); a host that is not running gets a notice
    and nothing else, a running host gets the request, and its reply is
    printed. *)
Fixpoint command_trace `{Env} (self : master) (cmd : string) (t : nat)
    (hosts : list (string * string)) : list event :=
  match hosts with
  | [] => []
  | hc :: rest =>
      let host := hc.1 in
      let same := selected self (Some host) in
      let t' := (t + length same)%nat in
      probes self t same ++
      if bool_decide (connect_ex t host (ctrl_port self) ≠ 0) then
        EvPrint (host +:+ " not running")
        :: command_trace self cmd t' rest
      else
        let u := ctrl_url_of self host in
        [EvOpen u REQ connect_mode; EvSend u (MStr cmd);
         EvPrint (req_reply t' u cmd); EvClose u REQ]
        ++ command_trace self cmd (S t') rest
  end.

End WorkerMaster.

(** ** The supervisor of one host and its workers *)

Module WorkerPool.

(** A socket of [self.workers], with the [pid] attribute that [start]
    attaches to it. *)
Record handle := mkHandle { sock_url : url; sock_pid : Z }.

(** The attributes of a [WorkerPool]. [workers] does not exist before
    [start] has assigned it. *)
Record pool := mkPool {
  ctrl_url : url;
  task_out_url : url;
  num_workers : Z;
  pid : Z;
  workers : option (list handle)
}.

Definition set_workers (ws : list handle) (self : pool) : pool :=
  {| ctrl_url := ctrl_url self; task_out_url := task_out_url self;
     num_workers := num_workers self; pid := pid self;
     workers := Some ws |}.

(** [WorkerPool(ctrl_url, task_out_url, num_workers='-1')] *)
Definition __init__ `{Env} (ctrl_url task_out_url : url)
    (num_workers : string) : res pool :=
  if bool_decide (num_workers = "-1") then
    Ok (mkPool ctrl_url task_out_url cpu_count getpid None)
  else
    match py_int num_workers with
    | Some n => Ok (mkPool ctrl_url task_out_url n getpid None)
    | None => Raise ValueError
    end.

(** Modelled from the spec: [parallel.safely_call] (module [parallel] is
    not part of the sources at hand) invokes the callable with the
    arguments and captures any raised failure in the result rather than
    letting it propagate. *)
Definition safely_call (cmd : callable) (args : list value)
    (mon : Monitor) : TaskResult :=
  match func_call cmd args mon with
  | Returned v => Success v
  | Raised kind msg => Failure kind msg (func_name cmd)
  end.

(** The body of [for cmd, args in sock]. A message that is not a pair
    whose second part ends with a Monitor makes the unpacking or the
    attribute access raise. *)
Definition serve (m : message) : M unit ctl :=
  match m with
  | MTask cmd args mon =>
      let backurl := backurl mon in
      do! with_socket backurl PUSH connect_mode
            (emit (EvSend backurl (MResult (safely_call cmd args mon)))) in
      ret Continue
  | MStr s =>
      if bool_decide (String.length s = 2%nat)
      then raise (AttributeError "backurl") else raise ValueError
  | MInt _ => raise TypeError
  | MResult _ => raise TypeError
  end.

(** [worker(self, sock)], run by every worker process. *)
Definition worker : M unit unit :=
  do! emit (EvProcTitle "oq worker") in
  for_socket serve.

(** [self.workers.append(sock)] *)
Definition append_worker (sock : handle) : M pool unit :=
  let! self := get_objs in
  match workers self with
  | Some ws => put_objs (set_workers (ws ++ [sock]) self)
  | None => raise (AttributeError "workers")
  end.

(** The loop [for _ in range(self.num_workers)] of [start]. *)
Fixpoint spawn `{Env} (k : nat) : M pool unit :=
  match k with
  | O => ret ()
  | S k' =>
      let! self := get_objs in
      let! t := tick in
      do! emit (EvSpawn (proc_pid t)) in
      do! append_worker (mkHandle (task_out_url self) (proc_pid t)) in
      spawn k'
  end.

Definition stop : M pool string :=
  let! self := get_objs in
  match workers self with
  | Some ws =>
      do! for_each ws (λ sock, emit (EvKill (sock_pid sock) SIGINT)) in
      ret ("WorkerPool " +:+ ctrl_url self +:+ " stopped")
  | None => raise (AttributeError "workers")
  end.

Definition kill : M pool string :=
  let! self := get_objs in
  match workers self with
  | Some ws =>
      do! for_each ws (λ sock, emit (EvKill (sock_pid sock) SIGTERM)) in
      ret ("WorkerPool " +:+ ctrl_url self +:+ " killed")
  | None => raise (AttributeError "workers")
  end.

(** The body of the control loop [for cmd in ctrlsock]. *)
Definition control (cmd : message) : M pool ctl :=
  let! self := get_objs in
  if msg_eq cmd "stop" || msg_eq cmd "kill" then
    let! msg := (if msg_eq cmd "stop" then stop else kill) in
    do! emit (EvSend (ctrl_url self) (MStr msg)) in
    ret Break
  else if msg_eq cmd "getpid" then
    do! emit (EvSend (ctrl_url self) (MInt (pid self))) in
    ret Continue
  else ret Continue.

Definition start `{Env} : M pool unit :=
  do! emit (EvProcTitle "oq workerpool") in
  let! self := get_objs in
  do! put_objs (set_workers [] self) in
  do! spawn (Z.to_nat (num_workers self)) in
  for_socket control.

(** The command that asks the pool to signal its workers with [sig],
    and the confirmation that the pool replies. *)
Definition command_of (sig : signal) : string :=
  match sig with SIGINT => "stop" | SIGTERM => "kill" end.

Definition confirmation (sig : signal) (self : pool) : string :=
  "WorkerPool " +:+ ctrl_url self +:+
  match sig with SIGINT => " stopped" | SIGTERM => " killed" end.

(** Commands that do not end the control loop. *)
Definition nonterminal (m : message) : Prop :=
  msg_eq m "stop" = false ∧ msg_eq m "kill" = false.

(** The calls of one pass of the control loop for a command [m] that is
    neither [stop] nor [kill]. *)
Definition served (self : pool) (m : message) : list event :=
  EvRecv m ::
  (if msg_eq m "getpid" then [EvSend (ctrl_url self) (MInt (pid self))]
   else []).

(** The sockets that [start] records when the next answer of the
    environment is the answer number [t]. *)
Definition handles `{Env} (self : pool) (t : nat) : list handle :=
  (λ i, mkHandle (task_out_url self) (proc_pid i))
    <$> seq t (Z.to_nat (num_workers self)).

End WorkerPool.

(** ** A sample environment

    A host with eight cores where only [node1] listens on the control
    port, used to run the definitions on concrete inputs. *)

Definition decimal_digit (c : Ascii.ascii) : option Z :=
  let n := Z.of_N (Ascii.N_of_ascii c) in
  if bool_decide (48 ≤ n ≤ 57) then Some (n - 48) else None.

(** Plain decimal numerals, a part of what [int] accepts. *)
Fixpoint decimal (s : string) (acc : Z) : option Z :=
  match s with
  | EmptyString => Some acc
  | String c s' =>
      match decimal_digit c with
      | Some d => decimal s' (10 * acc + d)
      | None => None
      end
  end.

Definition sample_int (s : string) : option Z :=
  match s with
  | EmptyString => None
  | String c s' =>
      if bool_decide (Ascii.N_of_ascii c = 45%N) then
        match s' with
        | EmptyString => None
        | _ => Z.opp <$> decimal s' 0
        end
      else decimal s 0
  end.

Definition sample_env : Env := {|
  cpu_count := 8;
  getpid := 4242;
  sys_executable := "/usr/bin/python";
  py_int := sample_int;
  connect_ex := λ _ host _, if bool_decide (host = "node1") then 0 else 111;
  proc_pid := λ t, 5000 + Z.of_nat t;
  true_end_point := λ _, "tcp://10.0.0.1:1912";
  req_reply := λ _ u cmd, "WorkerPool " +:+ u +:+ " " +:+ cmd +:+ "ped"
|}.

(** Two callables: one adds its two arguments, one always fails. *)
Definition sample_add : callable :=
  mkCallable "add" (λ args _,
    match args with
    | [VInt a; VInt b] => Returned (VInt (a + b))
    | _ => Raised "TypeError" "add() takes two integers"
    end).

Definition sample_fail : callable :=
  mkCallable "fail" (λ _ _, Raised "ValueError" "no such source").

Definition sample_monitor : Monitor := mkMonitor "classical" "".

(** Two tasks that share one Monitor object, and the world of a
    submitter to which two results will arrive. *)
Definition sample_iterargs : list task_args :=
  [mkArgs [VInt 1; VInt 2] 0%nat; mkArgs [VInt 3; VInt 4] 0%nat].

Definition sample_submitter : world Starmap.heap :=
  mkWorld (λ _, sample_monitor) [] 0
    [MResult (Success (VInt 7)); MResult (Success (VInt 3))].

(** A master of two hosts, of which [node1] runs a pool and the local
    host does not, and a master of [node1] alone. *)
Definition sample_master : WorkerMaster.master :=
  WorkerMaster.mkMaster "tcp://10.0.0.1:1907" "tcp://10.0.0.1:1908" 1909
    [("node1", "4"); ("127.0.0.1", "2")] "/opt/oq/bin/python".

Definition sample_master_up : WorkerMaster.master :=
  WorkerMaster.mkMaster "tcp://10.0.0.1:1907" "tcp://10.0.0.1:1908" 1909
    [("node1", "4")] "/opt/oq/bin/python".

(** The pool that [WorkerPool('tcp://0.0.0.0:1909', 'tcp://10.0.0.1:1908',
    '2')] constructs in the sample environment. *)
Definition sample_pool : WorkerPool.pool :=
  WorkerPool.mkPool "tcp://0.0.0.0:1909" "tcp://10.0.0.1:1908" 2 4242 None.

(** ** Further observations and reference functions *)

(** More observations on a trace: the zmq sockets opened and closed, the
    signals sent and the number of TCP sockets created and closed. *)
Definition opens (tr : list event) : list (url * pattern * mode) :=
  omap (λ e, match e with EvOpen u p m => Some (u, p, m) | _ => None end) tr.

Definition closes (tr : list event) : list (url * pattern) :=
  omap (λ e, match e with EvClose u p => Some (u, p) | _ => None end) tr.

Definition kills (tr : list event) : list (Z * signal) :=
  omap (λ e, match e with EvKill p s => Some (p, s) | _ => None end) tr.

Definition tcp_created (tr : list event) : nat :=
  length (omap (λ e, match e with EvTcpSocket => Some () | _ => None end) tr).

Definition tcp_closed (tr : list event) : nat :=
  length (omap (λ e, match e with EvTcpClose => Some () | _ => None end) tr).

(** The command line with which [WorkerMaster.start] launches the pool
    of the entry [hc]. *)
Definition launch_argv `{Env} (self : WorkerMaster.master)
    (hc : string * string) : list string :=
  ((if bool_decide (hc.1 = "127.0.0.1") then [sys_executable]
    else ["ssh"; hc.1; WorkerMaster.remote_python self])
   ++ ["-m"; "openquake.baselib.workerpool";
       WorkerMaster.ctrl_url_of self hc.1;
       WorkerMaster.task_out_url self; hc.2])%list.

(** The entries among [hosts] that [WorkerMaster.start] finds not
    running, when the next answer of the environment is the answer
    number [t]: the verdict on an entry is the first answer given for its
    host, and the probe of a host takes one answer per entry of that
    name. *)
Fixpoint to_launch `{Env} (self : WorkerMaster.master) (t : nat)
    (hosts : list (string * string)) : list (string * string) :=
  match hosts with
  | [] => []
  | hc :: rest =>
      let t' := (t + length (WorkerMaster.selected self (Some hc.1)))%nat in
      if bool_decide (connect_ex t hc.1 (WorkerMaster.ctrl_port self) = 0)
      then to_launch self t' rest
      else hc :: to_launch self t' rest
  end.

(** The commands that the control loop of a pool reads from the
    messages [inb]: all of them up to the first [stop] or [kill], which
    it reads too. *)
Definition terminal (m : message) : bool :=
  msg_eq m "stop" || msg_eq m "kill".

Fixpoint served_prefix (inb : list message) : list message :=
  match inb with
  | [] => []
  | m :: rest => if terminal m then [m] else m :: served_prefix rest
  end.

(** What the pool replies to a command, if anything. *)
Definition reply_to (self : WorkerPool.pool) (m : message)
    : option message :=
  if msg_eq m "stop" then
    Some (MStr (WorkerPool.confirmation SIGINT self))
  else if msg_eq m "kill" then
    Some (MStr (WorkerPool.confirmation SIGTERM self))
  else if msg_eq m "getpid" then Some (MInt (WorkerPool.pid self))
  else None.

(** The signal that a command makes the pool send to its workers. *)
Definition signal_of (m : message) : option signal :=
  if msg_eq m "stop" then Some SIGINT
  else if msg_eq m "kill" then Some SIGTERM
  else None.

(** The calls [T] open one REQ socket per request sent, close each of
    them, and close as many TCP sockets as they create. *)
Definition req_round_trips (T : list event) : Prop :=
  opens T = (λ um, (um.1, REQ, connect_mode)) <$> sends T
  ∧ closes T = (λ um, (um.1, REQ)) <$> sends T
  ∧ tcp_created T = tcp_closed T.

(** A task as the worker receives it, the calls with which the worker
    serves it, and the result that it pushes for it. *)
Definition task_message (x : callable * list value * Monitor) : message :=
  MTask x.1.1 x.1.2 x.2.

Definition result_push (x : callable * list value * Monitor)
    : url * message :=
  (backurl x.2, MResult (WorkerPool.safely_call x.1.1 x.1.2 x.2)).

Definition task_served (x : callable * list value * Monitor)
    : list event :=
  [EvRecv (task_message x);
   EvOpen (backurl x.2) PUSH connect_mode;
   EvSend (backurl x.2) (result_push x).2;
   EvClose (backurl x.2) PUSH].

(** The values that a caller got out of a generator, without the state
    in which the generator is left. *)
Definition yielded {A} (r : res (list message * A)) : res (list message) :=
  match r with
  | Ok x => Ok x.1
  | Raise e => Raise e
  | Block => Block
  end.

(** The entry point of the module: [ctrl_url, task_out_url, num_workers
    = sys.argv[1:]] and [WorkerPool(...).start()]. [args] is
    [sys.argv[1:]]; there is a pool object once the constructor has
    returned. *)
Definition main `{Env} (args : list string) (tr : list event) (t : nat)
    (inb : list message) : res () * world (option WorkerPool.pool) :=
  match args with
  | [ctrl_url; task_out_url; num_workers] =>
      match WorkerPool.__init__ ctrl_url task_out_url num_workers with
      | Ok self =>
          let (r, w') := WorkerPool.start (mkWorld self tr t inb) in
          (r, mkWorld (Some (objs w')) (trace w') (ticks w') (inbox w'))
      | Raise e => (Raise e, mkWorld None tr t inb)
      | Block => (Block, mkWorld None tr t inb)
      end
  | _ => (Raise ValueError, mkWorld None tr t inb)
  end.

(** ** The event based calculator: two of its size computations

    From [calculators/event_based.py]: the check of the limits of the
    stored ground motion fields and the estimate of their size. Both
    work on Python integers. A dictionary that is iterated is an
    association list in the order of its items. *)

Module EventBased.

Inductive failure :=
| KeyError
| IndexError
| ValueError (msg : string).

Inductive outcome (A : Type) :=
| Done (a : A)
| Fail (f : failure).
Arguments Done {A} a.
Arguments Fail {A} f.

(** [d[k]] for a dictionary given by its items. *)
Fixpoint getitem {A} (d : list (string * A)) (k : string) : outcome A :=
  match d with
  | [] => Fail KeyError
  | (k', v) :: rest => if bool_decide (k' = k) then Done v else getitem rest k
  end.

(** [max_ = dict(sites=2**16, events=2**32, imts=2**8)] *)
Definition max_ : list (string * Z) :=
  [("sites", 2 ^ 16); ("events", 2 ^ 32); ("imts", 2 ^ 8)].

(** The loop [for var in max_] of [check_overflow]. *)
Fixpoint check_vars (vars : list (string * Z)) (num_ : list (string * Z))
    : outcome unit :=
  match vars with
  | [] => Done ()
  | (var, limit) :: rest =>
      match getitem num_ var with
      | Done n =>
          if bool_decide (n > limit) then
            Fail (ValueError
                    ("The event based calculator is restricted to "
                     +:+ pretty limit +:+ " " +:+ var +:+ ", got "
                     +:+ pretty n))
          else check_vars rest num_
      | Fail f => Fail f
      end
  end.

(** [check_overflow(self)]. [events_dset] is the length of the dataset
    ['events'], [None] when the datastore has no such dataset and the
    lookup raises [KeyError]; the two other arguments are
    [len(self.sitecol)] and [len(self.oqparam.imtls)]. *)
Definition check_overflow (events_dset : option nat)
    (len_sitecol len_imtls : nat) : outcome unit :=
  let events :=
    match events_dset with
    | Some n => Z.of_nat n
    | None => 0
    end in
  let num_ := [("sites", Z.of_nat len_sitecol); ("events", events);
               ("imts", Z.of_nat len_imtls)] in
  check_vars max_ num_.

(** A record of [ebr.events] and an [EBRupture], of which the size
    estimate reads the site ids of its rupture and its events. *)
Record event_rec := mkEvent { eid : Z; ses : Z; sample : Z }.

Record EBRupture := mkEBRupture {
  sids : list Z;
  events : list event_rec
}.

Section MaxGmfSize.

(** [general.get_array(events, sample=s)], a function of module
    [baselib.general] whose source is not at hand: it is a parameter. *)
Variable get_array : list event_rec → Z → list event_rec.

(** The list [len_eids] of the two branches on [samples > 1]. *)
Definition len_eids (samples : Z) (sample : nat) (ebr : EBRupture)
    (rlzs : list Z) : list nat :=
  if bool_decide (samples > 1) then
    (λ s, length (get_array (events ebr) (Z.of_nat s)))
      <$> seq sample (length rlzs)
  else replicate (length rlzs) (length (events ebr)).

(** [for r, rlzi in enumerate(rlzs): n += len(sids) * len_eids[r]] *)
Fixpoint add_rlzs (nsids : nat) (l_eids : list nat) (r : nat)
    (rlzs : list Z) (n : nat) : outcome nat :=
  match rlzs with
  | [] => Done n
  | _ :: rest =>
      match l_eids !! r with
      | Some k => add_rlzs nsids l_eids (S r) rest (n + nsids * k)
      | None => Fail IndexError
      end
  end.

(** [for ebr in ebruptures: ...] *)
Fixpoint add_ruptures (samples : Z) (sample : nat) (rlzs : list Z)
    (ebruptures : list EBRupture) (n : nat) : outcome nat :=
  match ebruptures with
  | [] => Done n
  | ebr :: rest =>
      match add_rlzs (length (sids ebr)) (len_eids samples sample ebr rlzs)
              0 rlzs n with
      | Done n' => add_ruptures samples sample rlzs rest n'
      | Fail f => Fail f
      end
  end.

(** [for gsim, rlzs in get_rlzs_by_gsim(grp_id).items(): ...;
    sample += len(rlzs)] *)
Fixpoint add_gsims (samples : Z) (ebruptures : list EBRupture)
    (items : list (string * list Z)) (sample n : nat) : outcome nat :=
  match items with
  | [] => Done n
  | (gsim, rlzs) :: rest =>
      match add_ruptures samples sample rlzs ebruptures n with
      | Done n' =>
          add_gsims samples ebruptures rest (sample + length rlzs) n'
      | Fail f => Fail f
      end
  end.

(** [for grp_id, ebruptures in ruptures_by_grp.items(): sample = 0;
    samples = samples_by_grp[grp_id]; ...] *)
Fixpoint add_groups (ruptures_by_grp : list (Z * list EBRupture))
    (get_rlzs_by_gsim : Z → list (string * list Z))
    (samples_by_grp : Z → option Z) (n : nat) : outcome nat :=
  match ruptures_by_grp with
  | [] => Done n
  | (grp_id, ebruptures) :: rest =>
      match samples_by_grp grp_id with
      | Some samples =>
          match add_gsims samples ebruptures (get_rlzs_by_gsim grp_id)
                  0 n with
          | Done n' =>
              add_groups rest get_rlzs_by_gsim samples_by_grp n'
          | Fail f => Fail f
          end
      | None => Fail KeyError
      end
  end.

(** [max_gmf_size(ruptures_by_grp, get_rlzs_by_gsim, samples_by_grp,
    num_imts)]; [samples_by_grp] gives [None] for a key that the
    dictionary does not have. *)
Definition max_gmf_size (ruptures_by_grp : list (Z * list EBRupture))
    (get_rlzs_by_gsim : Z → list (string * list Z))
    (samples_by_grp : Z → option Z) (num_imts : nat) : outcome nat :=
  let nbytes := (2 + 4 + 8 + 4 * num_imts)%nat in
  match add_groups ruptures_by_grp get_rlzs_by_gsim samples_by_grp 0 with
  | Done n => Done (n * nbytes)%nat
  | Fail f => Fail f
  end.

End MaxGmfSize.

(** The number of values that one rupture contributes for one
    realization when the logic tree is enumerated in full: the number of
    its sites times the number of its events. *)
Definition rupture_rows (ebr : EBRupture) : nat :=
  (length (sids ebr) * length (events ebr))%nat.

End EventBased.

(** ** The ground motion values that the engine collects

    From [engine/calculators/hazard/event_based/core.py]: the generator
    [RuptureData.calc_gmf] and the method [GmfCalculator.calc_gmfs] that
    stores what it yields in two dictionaries of lists. The intensity
    measure types [I] and the ground motion values [G] are opaque. *)

Module EngineCore.

Section GmfCalculator.
Context {I G : Type} `{EqDecision I}.

(** What [calc_gmf] reads of a [RuptureData]: its pairs [(rupid, seed)]
    and the ids of the sites that the rupture affects. *)
Record RuptureData := mkRuptureData {
  rupid_seed_pairs : list (Z * Z);
  r_sites_sids : list Z
}.

(** [computer.compute(seed).iteritems()] for the [GmfComputer] that
    [calc_gmf] builds for a rupture, a class of hazardlib: the items
    [((gsim_name, imt), gmvs)] of the dictionary that it returns. *)
Variable compute : RuptureData → Z → list ((string * I) * list G).

(** [get_weight(self)] *)
Definition get_weight (self : RuptureData) : nat :=
  length (rupid_seed_pairs self).

(** [calc_gmf(self, ...)]: the tuples [(gsim_name, imt, site_id, rupid,
    gmv)] that the generator yields, in order. *)
Definition calc_gmf (self : RuptureData)
    : list (string * I * Z * Z * G) :=
  rupid_seed_pairs self ≫= λ rs,
    compute self rs.2 ≫= λ item,
      (λ sg, (item.1.1, item.1.2, sg.1, rs.1, sg.2))
        <$> zip (r_sites_sids self) item.2.

(** A [defaultdict(list)] with the keys [(gsim_name, imt, site_id)],
    into which entries only come by [d[k].append(x)]: the list that it
    holds for every key, empty for the keys that it does not have. *)
Definition dd (V : Type) : Type := string * I * Z → list V.

Definition dd_empty {V} : dd V := λ _, [].

(** [d[k].append(x)] *)
Definition dd_append {V} (k : string * I * Z) (x : V) (d : dd V) : dd V :=
  <[k := (d k ++ [x])%list]> d.

(** The two dictionaries of a [GmfCalculator]. *)
Record GmfCalculator := mkGmfCalculator {
  gmvs_per_site : dd G;
  ruptures_per_site : dd Z
}.

(** The body of the inner loop of [calc_gmfs]. *)
Definition store (self : GmfCalculator) (t : string * I * Z * Z * G)
    : GmfCalculator :=
  let k := (t.1.1.1.1, t.1.1.1.2, t.1.1.2) in
  mkGmfCalculator (dd_append k t.2 (gmvs_per_site self))
                  (dd_append k t.1.2 (ruptures_per_site self)).

(** [calc_gmfs(self, rupture_data)] *)
Definition calc_gmfs (self : GmfCalculator)
    (rupture_data : list RuptureData) : GmfCalculator :=
  foldl (λ self rdata, foldl store self (calc_gmf rdata))
    self rupture_data.

(** The key under which a tuple is stored, and the tuples of a key. *)
Definition key_of (t : string * I * Z * Z * G) : string * I * Z :=
  (t.1.1.1.1, t.1.1.1.2, t.1.1.2).

Definition with_key (k : string * I * Z)
    (ts : list (string * I * Z * Z * G)) : list (string * I * Z * Z * G) :=
  filter (λ t, key_of t = k) ts.

End GmfCalculator.

End EngineCore.

(** ** More sample data *)

(** Three tasks as a worker receives them, the second of which fails. *)
Definition sample_tasks : list (callable * list value * Monitor) :=
  [(sample_add, [VInt 1; VInt 2], mkMonitor "classical" "tcp://10.0.0.1:1912");
   (sample_fail, [], mkMonitor "classical" "tcp://10.0.0.1:1912");
   (sample_add, [VInt 3; VInt 4], mkMonitor "classical" "tcp://10.0.0.1:1913")].

(** A submitter to which only one result arrives. *)
Definition sample_starved : world Starmap.heap :=
  mkWorld (λ _, sample_monitor) [] 0 [MResult (Success (VInt 3))].

(** Two ruptures of one group with two GSIMs and three realizations, and
    a [get_array] that selects the events of a sample. *)
Definition sample_get_array (evs : list EventBased.event_rec) (s : Z)
    : list EventBased.event_rec :=
  filter (λ e, EventBased.sample e = s) evs.

Definition sample_ruptures : list (Z * list EventBased.EBRupture) :=
  [(0, [EventBased.mkEBRupture [0; 1; 2]
          [EventBased.mkEvent 0 1 0; EventBased.mkEvent 1 1 1];
        EventBased.mkEBRupture [1]
          [EventBased.mkEvent 2 1 2; EventBased.mkEvent 3 2 2;
           EventBased.mkEvent 4 2 0]])].

Definition sample_rlzs_by_gsim (grp_id : Z) : list (string * list Z) :=
  [("BooreAtkinson2008", [0; 1]); ("ChiouYoungs2008", [2])].

(** * Properties *)

(** ** The monad *)

(** Run the primitive operations of the monad on a given world. *)
Ltac msimpl :=
cbv [bind ret raise emit tick get_objs put_objs recv block
     try_finally with_socket getitem]; simpl.

Section Monad.
Context {O : Type}.

Lemma bind_ok {A B} (m : M O A) (k : A → M O B) w a w' :
  m w = (Ok a, w') → bind m k w = k a w'.
Proof. intros E. unfold bind. by rewrite E. Qed.

Lemma bind_raise {A B} (m : M O A) (k : A → M O B) w e w' :
  m w = (Raise e, w') → bind m k w = (Raise e, w').
Proof. intros E. unfold bind. by rewrite E. Qed.

Lemma bind_block {A B} (m : M O A) (k : A → M O B) w w' :
  m w = (Block, w') → bind m k w = (Block, w').
Proof. intros E. unfold bind. by rewrite E. Qed.

Lemma bind_assoc {A B C} (m : M O A) (f : A → M O B) (g : B → M O C) w :
  bind (bind m f) g w = bind m (λ x, bind (f x) g) w.
Proof. unfold bind. by destruct (m w) as [[a|e|] w']. Qed.

Lemma advance_nil (w : world O) : advance w [] 0 (inbox w) = w.
Proof.
  destruct w as [o tr t i]. unfold advance. simpl.
  by rewrite app_nil_r, Nat.add_0_r.
Qed.

Lemma advance_advance (w : world O) evs1 n1 i1 evs2 n2 i2 :
  advance (advance w evs1 n1 i1) evs2 n2 i2
  = advance w (evs1 ++ evs2) (n1 + n2) i2.
Proof.
  unfold advance. simpl. by rewrite app_assoc, Nat.add_assoc.
Qed.

Lemma emit_advance (e : event) (w : world O) :
  emit e w = (Ok (), advance w [e] 0 (inbox w)).
Proof. unfold emit, advance. by rewrite Nat.add_0_r. Qed.

(** A finaliser runs also when the body raises, and the exception goes
    on. *)
Lemma try_finally_raise {A} (body : M O A) (fin : M O unit) w e w1 w2 :
  body w = (Raise e, w1) →
  fin w1 = (Ok (), w2) →
  try_finally body fin w = (Raise e, w2).
Proof.
  intros Hb Hf. unfold try_finally. rewrite Hb.
  by erewrite bind_ok by exact Hf.
Qed.

Lemma for_each_emit {A} (f : A → event) (xs : list A) (w : world O) :
  for_each xs (λ x, emit (f x)) w
  = (Ok (), advance w (f <$> xs) 0 (inbox w)).
Proof.
  revert w. induction xs as [|x xs IH]; intros w; simpl.
  - unfold ret. by rewrite advance_nil.
  - erewrite bind_ok by apply emit_advance.
    rewrite IH. simpl. by rewrite advance_advance.
Qed.

End Monad.

(** ** The task submission protocol *)

Section StarmapFacts.
Context `{Env}.
Import Starmap.

(** The submission loop sends one task per tuple, in the order of the
    input, each with its Monitor stamped, takes nothing from the inbox
    and counts the tuples. *)
Lemma submit_spec func sender ep iterargs n (w : world heap) :
  ∃ h',
    submit func sender ep iterargs n w
    = (Ok (n + length iterargs)%nat,
       mkWorld h' (trace w ++ (task_sent func sender ep (objs w) <$> iterargs))
         (ticks w) (inbox w))
    ∧ ∀ l, h' l = if bool_decide (l ∈ monitor <$> iterargs)
                  then set_backurl ep (objs w l) else objs w l.
Proof.
  revert n w. induction iterargs as [|a rest IH]; intros n w.
  - exists (objs w). simpl. unfold ret. split.
    + destruct w. simpl. by rewrite app_nil_r, Nat.add_0_r.
    + done.
  - simpl. msimpl. unfold setattr_backurl, send_task. msimpl.
    match goal with
    | |- ∃ _, submit _ _ _ _ _ ?w1 = _ ∧ _ =>
        destruct (IH (S n) w1) as (h' & E & Hh')
    end.
    set (h1 := <[monitor a := set_backurl ep (objs w (monitor a))]> (objs w))
      in *.
    exists h'. split.
    + rewrite E. simpl. f_equal; [f_equal; lia|].
      f_equal. rewrite <- app_assoc. f_equal. simpl. f_equal.
      * unfold task_sent, h1. by rewrite fn_lookup_insert.
      * apply list_fmap_ext. intros _ b _. unfold task_sent, h1.
        destruct (decide (monitor a = monitor b)) as [->|Hne].
        -- by rewrite fn_lookup_insert.
        -- by rewrite fn_lookup_insert_ne.
    + intros l. rewrite Hh'. simpl. unfold h1.
      destruct (decide (monitor a = l)) as [<-|Hne].
      * rewrite fn_lookup_insert.
        rewrite (bool_decide_eq_true_2 (monitor a ∈ monitor a :: _))
          by apply list_elem_of_here.
        by destruct (bool_decide _).
      * rewrite fn_lookup_insert_ne by done.
        destruct (decide (l ∈ monitor <$> rest)) as [Hin|Hnin].
        -- rewrite !bool_decide_eq_true_2;
             [done | by apply list_elem_of_further | done].
        -- rewrite !bool_decide_eq_false_2; [done | | done].
           intros [?|?]%elem_of_cons; [by subst | done].
Qed.

Lemma sends_app tr1 tr2 : sends (tr1 ++ tr2) = (sends tr1 ++ sends tr2)%list.
Proof. apply omap_app. Qed.

Lemma recvs_app tr1 tr2 : recvs (tr1 ++ tr2) = (recvs tr1 ++ recvs tr2)%list.
Proof. apply omap_app. Qed.

Lemma sends_task_sent func sender ep h iterargs :
  length (sends (task_sent func sender ep h <$> iterargs)) = length iterargs.
Proof. induction iterargs; simpl; [done | by f_equal]. Qed.

Lemma recvs_task_sent func sender ep h iterargs :
  recvs (task_sent func sender ep h <$> iterargs) = [].
Proof. by induction iterargs. Qed.

Lemma recvs_EvRecv msgs : recvs (EvRecv <$> msgs) = msgs.
Proof. induction msgs; simpl; [done | by f_equal]. Qed.

Lemma sends_EvRecv msgs : sends (EvRecv <$> msgs) = [].
Proof. by induction msgs. Qed.

(** The first [next]: both sockets are opened, every task is sent and
    the count is yielded; nothing has been received. *)
Lemma next_created func iterargs tin rurl (w : world heap) :
  ∃ h',
    next (_starmap func iterargs tin rurl) w
    = (Ok (Some (MInt (Z.of_nat (length iterargs))),
           Suspended (length iterargs) tin rurl),
       mkWorld h'
         (trace w ++ EvOpen rurl PULL bind_mode
                  :: EvOpen tin PUSH connect_mode
                  :: (task_sent func tin (true_end_point rurl) (objs w)
                        <$> iterargs))
         (ticks w) (inbox w))
    ∧ ∀ l, h' l = if bool_decide (l ∈ monitor <$> iterargs)
                  then set_backurl (true_end_point rurl) (objs w l)
                  else objs w l.
Proof.
  unfold _starmap, next. msimpl.
  match goal with
  | |- context [submit ?f ?s ?e ?a ?n ?w1] =>
      destruct (submit_spec f s e a n w1) as (h' & E & Hh'); rewrite E
  end.
  exists h'. split; [|done]. simpl.
  by rewrite <- !app_assoc.
Qed.

Lemma next_suspended_S k tin rurl h tr t m inb :
  next (Suspended (S k) tin rurl) (mkWorld h tr t (m :: inb))
  = (Ok (Some m, Suspended k tin rurl), mkWorld h (tr ++ [EvRecv m]) t inb).
Proof. done. Qed.

Lemma next_suspended_O tin rurl (w : world heap) :
  next (Suspended 0 tin rurl) w
  = (Ok (None, Finished),
     advance w [EvClose tin PUSH; EvClose rurl PULL] 0 (inbox w)).
Proof.
  unfold next. msimpl. unfold advance.
  by rewrite <- app_assoc, Nat.add_0_r.
Qed.

Lemma islice_S_some k g w v g' w' vs g'' w'' :
  next g w = (Ok (Some v, g'), w') →
  islice k g' w' = (Ok (vs, g''), w'') →
  islice (S k) g w = (Ok (v :: vs, g''), w'').
Proof.
  intros E1 E2. cbn [islice]. erewrite bind_ok by exact E1.
  cbv beta iota. by erewrite bind_ok by exact E2.
Qed.

Lemma islice_S_none k g w g' w' :
  next g w = (Ok (None, g'), w') →
  islice (S k) g w = (Ok ([], g'), w').
Proof. intros E1. cbn [islice]. by erewrite bind_ok by exact E1. Qed.

Lemma islice_S_block k g w v g' w' w'' :
  next g w = (Ok (Some v, g'), w') →
  islice k g' w' = (Block, w'') →
  islice (S k) g w = (Block, w'').
Proof.
  intros E1 E2. cbn [islice]. erewrite bind_ok by exact E1.
  cbv beta iota. by erewrite bind_block by exact E2.
Qed.

(** With [k] iterations to go and at least [k] messages arriving, the
    next [k + 1] calls yield these [k] messages, close both sockets
    and end the generator. *)
Lemma islice_suspended msgs rest tin rurl (w : world heap) :
  inbox w = (msgs ++ rest)%list →
  islice (S (length msgs)) (Suspended (length msgs) tin rurl) w
  = (Ok (msgs, Finished),
     advance w ((EvRecv <$> msgs)
                ++ [EvClose tin PUSH; EvClose rurl PULL]) 0 rest).
Proof.
  revert w. induction msgs as [|m msgs IH]; intros [h tr t inb] Hin;
    simpl in Hin; subst inb.
  - erewrite islice_S_none by apply next_suspended_O. done.
  - change (length (m :: msgs)) with (S (length msgs)).
    erewrite islice_S_some;
      [| apply next_suspended_S | by apply IH].
    unfold advance. simpl. by rewrite <- app_assoc.
Qed.

(** A generator that waits for more messages than will ever arrive
    blocks its caller for ever. *)
Lemma islice_starved k tin rurl (w : world heap) :
  (length (inbox w) < k)%nat →
  ∃ w', islice k (Suspended k tin rurl) w = (Block, w').
Proof.
  revert w. induction k as [|k IH]; intros [h tr t inb] Hlt;
    simpl in Hlt; [lia|].
  destruct inb as [|m inb].
  - eexists. cbn [islice]. by erewrite bind_block by reflexivity.
  - simpl in Hlt.
    edestruct (IH (mkWorld h (tr ++ [EvRecv m]) t inb)) as [w' E];
      [simpl; lia|].
    exists w'. eapply islice_S_block; [apply next_suspended_S | exact E].
Qed.

(** C1. For every input sequence of argument tuples the first [next]
    of [_starmap] yields the number [n] of tuples, having sent [n]
    tasks and received nothing; and when [n] results arrive the
    following calls yield exactly these [n] results and then the
    generator is exhausted: sends, announced count and yielded results
    all number [n]. *)
Theorem starmap_count_announced_then_results
    func iterargs tin rurl (w : world heap) :
  let n := length iterargs in
  let g := _starmap func iterargs tin rurl in
  (∃ w1,
     next g w = (Ok (Some (MInt (Z.of_nat n)), Suspended n tin rurl), w1)
     ∧ length (sends (trace w1)) = (length (sends (trace w)) + n)%nat
     ∧ recvs (trace w1) = recvs (trace w)
     ∧ inbox w1 = inbox w)
  ∧ ((n ≤ length (inbox w))%nat →
     ∃ w2,
       islice (S (S n)) g w
       = (Ok (MInt (Z.of_nat n) :: take n (inbox w), Finished), w2)
       ∧ length (take n (inbox w)) = n
       ∧ length (sends (trace w2)) = (length (sends (trace w)) + n)%nat
       ∧ recvs (trace w2) = (recvs (trace w) ++ take n (inbox w))%list
       ∧ inbox w2 = drop n (inbox w)).
Proof.
  intros n g.
  destruct (next_created func iterargs tin rurl w) as (h' & E & _).
  fold g n in E.
  assert (Hs : ∀ tr', length (sends (trace w ++ EvOpen rurl PULL bind_mode
                  :: EvOpen tin PUSH connect_mode
                  :: (task_sent func tin (true_end_point rurl) (objs w)
                        <$> iterargs) ++ tr'))
               = (length (sends (trace w)) + n + length (sends tr'))%nat).
  { intros tr'. rewrite sends_app, length_app. simpl.
    rewrite sends_app, length_app, sends_task_sent. fold n. lia. }
  assert (Hr : ∀ tr', recvs (trace w ++ EvOpen rurl PULL bind_mode
                  :: EvOpen tin PUSH connect_mode
                  :: (task_sent func tin (true_end_point rurl) (objs w)
                        <$> iterargs) ++ tr')
               = (recvs (trace w) ++ recvs tr')%list).
  { intros tr'. rewrite recvs_app. simpl.
    by rewrite recvs_app, recvs_task_sent. }
  split.
  - eexists. split; [exact E|]. simpl.
    specialize (Hs []). specialize (Hr []).
    rewrite app_nil_r in Hs, Hr. simpl in Hs, Hr.
    rewrite Hs, Hr, app_nil_r. split; [lia | done].
  - intros Hn.
    assert (Hlen : length (take n (inbox w)) = n)
      by (rewrite length_take; lia).
    pose proof (islice_suspended (take n (inbox w)) (drop n (inbox w))
                  tin rurl
                  (mkWorld h' (trace w ++ EvOpen rurl PULL bind_mode
                     :: EvOpen tin PUSH connect_mode
                     :: (task_sent func tin (true_end_point rurl) (objs w)
                           <$> iterargs)) (ticks w) (inbox w))) as E2.
    rewrite Hlen in E2. specialize (E2 (eq_sym (take_drop n (inbox w)))).
    eexists. split; [eapply islice_S_some; [exact E | exact E2]|].
    split; [done|]. unfold advance. simpl.
    rewrite <- app_assoc. simpl.
    rewrite Hs, Hr, sends_app, recvs_app, sends_EvRecv, recvs_EvRecv.
    simpl. rewrite app_nil_r. split; [lia | done].
Qed.

(** C7. In every run of [_starmap] the reply socket is bound before
    any task is sent, every Monitor that ends an argument tuple has its
    [backurl] set to the true end point of that socket, and every task
    is pushed with a Monitor that carries this same [backurl]. *)
Theorem starmap_backurl_is_bound_end_point
    func iterargs tin rurl (w : world heap) :
  ∃ w1,
    next (_starmap func iterargs tin rurl) w
    = (Ok (Some (MInt (Z.of_nat (length iterargs))),
           Suspended (length iterargs) tin rurl), w1)
    ∧ trace w1
      = (trace w ++ EvOpen rurl PULL bind_mode
                 :: EvOpen tin PUSH connect_mode
                 :: (task_sent func tin (true_end_point rurl) (objs w)
                       <$> iterargs))%list
    ∧ (∀ a, a ∈ iterargs →
         backurl (objs w1 (monitor a)) = true_end_point rurl)
    ∧ (∀ u m, (u, m) ∈ sends (drop (length (trace w)) (trace w1)) →
         u = tin ∧
         ∃ a mon, a ∈ iterargs ∧ m = MTask func (positional a) mon
                  ∧ backurl mon = true_end_point rurl)
    ∧ (∀ i u m, (length (trace w) ≤ i)%nat →
         trace w1 !! i = Some (EvSend u m) →
         (length (trace w) < i)%nat
         ∧ trace w1 !! (length (trace w))
           = Some (EvOpen rurl PULL bind_mode)).
Proof.
  destruct (next_created func iterargs tin rurl w) as (h' & E & Hh').
  eexists. split; [exact E|]. simpl. split; [done|]. split; [|split].
  - intros a Ha. rewrite Hh'.
    rewrite bool_decide_eq_true_2; [done|].
    apply list_elem_of_fmap. eauto.
  - intros u m Hm. rewrite drop_app_length in Hm. simpl in Hm.
    unfold sends in Hm. apply list_elem_of_omap in Hm as (e & He & Hsome).
    apply list_elem_of_fmap in He as (a & -> & Ha).
    unfold task_sent in Hsome. injection Hsome as <- <-.
    split; [done|]. eexists a, _. done.
  - intros i u m Hi Hev.
    assert (Hopen : (trace w ++ EvOpen rurl PULL bind_mode
              :: EvOpen tin PUSH connect_mode
              :: (task_sent func tin (true_end_point rurl) (objs w)
                    <$> iterargs))%list !! (length (trace w))
            = Some (EvOpen rurl PULL bind_mode)).
    { rewrite lookup_app_r by lia. by rewrite Nat.sub_diag. }
    split; [|done].
    destruct (decide (i = length (trace w))) as [->|]; [|lia].
    rewrite Hopen in Hev. discriminate.
Qed.

End StarmapFacts.

(** ** Loops over a socket *)

Section SocketLoops.
Context {O : Type}.

Lemma recv_cons (w : world O) m rest :
  inbox w = m :: rest →
  recv w = (Ok m, advance w [EvRecv m] 0 rest).
Proof.
  intros E. unfold recv, advance. rewrite E. by rewrite Nat.add_0_r.
Qed.

Lemma for_socket_empty (body : message → M O ctl) (w : world O) :
  inbox w = [] → for_socket body w = (Block, w).
Proof. intros E. unfold for_socket. by rewrite E. Qed.

Lemma for_socket_continue (body : message → M O ctl) (w w' : world O)
    m rest :
  inbox w = m :: rest →
  body m (advance w [EvRecv m] 0 rest) = (Ok Continue, w') →
  inbox w' = rest →
  for_socket body w = for_socket body w'.
Proof.
  intros E Hb E'. unfold for_socket. rewrite E, E'. cbn [for_pending].
  erewrite bind_ok by (by apply recv_cons).
  by erewrite bind_ok by exact Hb.
Qed.

Lemma for_socket_break (body : message → M O ctl) (w w' : world O)
    m rest :
  inbox w = m :: rest →
  body m (advance w [EvRecv m] 0 rest) = (Ok Break, w') →
  for_socket body w = (Ok (), w').
Proof.
  intros E Hb. unfold for_socket. rewrite E. cbn [for_pending].
  erewrite bind_ok by (by apply recv_cons).
  by erewrite bind_ok by exact Hb.
Qed.

Lemma for_socket_raise (body : message → M O ctl) (w w' : world O)
    m rest e :
  inbox w = m :: rest →
  body m (advance w [EvRecv m] 0 rest) = (Raise e, w') →
  for_socket body w = (Raise e, w').
Proof.
  intros E Hb. unfold for_socket. rewrite E. cbn [for_pending].
  erewrite bind_ok by (by apply recv_cons).
  by erewrite bind_raise by exact Hb.
Qed.

End SocketLoops.

(** ** The supervisor of one host *)

Section WorkerPoolFacts.
Context `{Env}.
Import WorkerPool.

Lemma control_nonterminal m (w : world pool) :
  nonterminal m →
  control m w
  = (Ok Continue, advance w (tail (served (objs w) m)) 0 (inbox w)).
Proof.
  intros [Hs Hk]. unfold control. msimpl. rewrite Hs, Hk. simpl.
  destruct (msg_eq m "getpid"); msimpl; unfold advance; simpl;
    rewrite ?app_nil_r, Nat.add_0_r; by destruct w.
Qed.

Lemma control_signal sig ws (w : world pool) :
  workers (objs w) = Some ws →
  control (MStr (command_of sig)) w
  = (Ok Break,
     advance w (((λ h, EvKill (sock_pid h) sig) <$> ws)
                ++ [EvSend (ctrl_url (objs w))
                      (MStr (confirmation sig (objs w)))])
       0 (inbox w)).
Proof.
  intros Hw. unfold control.
  erewrite bind_ok by reflexivity.
  destruct sig; simpl.
  - unfold stop. erewrite bind_ok.
    2:{ erewrite bind_ok by reflexivity. rewrite Hw.
        erewrite bind_ok by apply for_each_emit. reflexivity. }
    msimpl. unfold advance. simpl.
    by rewrite <- app_assoc, Nat.add_0_r.
  - unfold kill. erewrite bind_ok.
    2:{ erewrite bind_ok by reflexivity. rewrite Hw.
        erewrite bind_ok by apply for_each_emit. reflexivity. }
    msimpl. unfold advance. simpl.
    by rewrite <- app_assoc, Nat.add_0_r.
Qed.

(** Commands other than [stop] and [kill] are served one after the
    other and leave the loop running. *)
Lemma control_loop_nonterminal pre rest (w : world pool) :
  Forall nonterminal pre →
  inbox w = (pre ++ rest)%list →
  for_socket control w
  = for_socket control (advance w (pre ≫= served (objs w)) 0 rest).
Proof.
  intros Hpre. revert w. induction Hpre as [|m pre Hm _ IH]; intros w Hin.
  - simpl in *. by rewrite <- Hin, advance_nil.
  - simpl in Hin.
    erewrite for_socket_continue;
      [| exact Hin | by apply control_nonterminal | done].
    rewrite IH by done. rewrite !advance_advance. simpl.
    by destruct (msg_eq m "getpid").
Qed.

Lemma spawn_spec k self ws tr t inb :
  workers self = Some ws →
  spawn k (mkWorld self tr t inb)
  = (Ok (),
     mkWorld
       (set_workers
          (ws ++ ((λ i, mkHandle (task_out_url self) (proc_pid i))
                    <$> seq t k)) self)
       (tr ++ ((λ i, EvSpawn (proc_pid i)) <$> seq t k))
       (t + k) inb).
Proof.
  revert self ws tr t. induction k as [|k IH]; intros self ws tr t Hw.
  - simpl. unfold ret. rewrite !app_nil_r, Nat.add_0_r.
    destruct self; simpl in *; by subst.
  - cbn [spawn]. unfold append_worker. msimpl. rewrite Hw. msimpl.
    erewrite IH by done. simpl.
    rewrite <- !app_assoc. simpl. by rewrite Nat.add_succ_r.
Qed.

(** [start] up to its control loop: the title is set, [self.workers]
    is the list of the sockets of the started processes. *)
Lemma start_enters_control_loop self tr t inb :
  start (mkWorld self tr t inb)
  = for_socket control
      (mkWorld (set_workers (handles self t) self)
         (tr ++ EvProcTitle "oq workerpool"
             :: ((λ h, EvSpawn (sock_pid h)) <$> handles self t))
         (t + Z.to_nat (num_workers self)) inb).
Proof.
  unfold start. msimpl.
  rewrite (spawn_spec _ (set_workers [] self) []) by done.
  simpl. unfold handles. rewrite <- app_assoc. simpl.
  by rewrite <- list_fmap_compose.
Qed.

Lemma msg_eq_true m s : msg_eq m s = true → m = MStr s.
Proof.
  destruct m; simpl; try done. intros Hs.
  by apply bool_decide_eq_true_1 in Hs as ->.
Qed.






(** C2. When the control loop of [start] receives [stop] (or [kill])
    it signals every recorded worker with SIGINT (or SIGTERM), then
    replies with the confirmation, then leaves the loop: [start]
    returns and the commands that follow are never received. *)
Theorem pool_stop_kill_is_terminal sig self tr t pre rest :
  Forall nonterminal pre →
  ∃ w',
    start (mkWorld self tr t (pre ++ MStr (command_of sig) :: rest))
    = (Ok (), w')
    ∧ trace w'
      = (tr ++ EvProcTitle "oq workerpool"
            :: ((λ h, EvSpawn (sock_pid h)) <$> handles self t)
            ++ (pre ≫= served self)
            ++ EvRecv (MStr (command_of sig))
            :: ((λ h, EvKill (sock_pid h) sig) <$> handles self t)
            ++ [EvSend (ctrl_url self) (MStr (confirmation sig self))])%list
    ∧ workers (objs w') = Some (handles self t)
    ∧ inbox w' = rest.
Proof.
  intros Hpre. rewrite start_enters_control_loop.
  erewrite control_loop_nonterminal; [| exact Hpre | done].
  erewrite for_socket_break; [| done | by apply control_signal].
  eexists. split; [done|]. unfold advance. simpl.
  split; [|done]. rewrite <- !app_assoc. simpl.
  reflexivity.
Qed.

Lemma served_getpid self k :
  (replicate k (MStr "getpid") ≫= served self)
  = concat (replicate k [EvRecv (MStr "getpid");
                         EvSend (ctrl_url self) (MInt (pid self))]).
Proof. induction k as [|k IH]; [done|]. simpl. by rewrite <- IH. Qed.

(** C5. For every number [k], [k] requests [getpid] that arrive before
    any [stop] or [kill] are each answered with the process id taken
    when the pool was constructed, and the control loop goes on: it
    serves the commands that follow, and waits when there is none. *)
Theorem pool_getpid_repeated cu tou nw self k :
  __init__ cu tou nw = Ok self →
  pid self = getpid
  ∧ ∀ tr t rest,
      let replies :=
        concat (replicate k [EvRecv (MStr "getpid");
                             EvSend cu (MInt getpid)]) in
      let w_k :=
        mkWorld (set_workers (handles self t) self)
          (tr ++ EvProcTitle "oq workerpool"
              :: ((λ h, EvSpawn (sock_pid h)) <$> handles self t)
              ++ replies)
          (t + Z.to_nat (num_workers self)) rest in
      start (mkWorld self tr t (replicate k (MStr "getpid") ++ rest))
      = for_socket control w_k
      ∧ (rest = [] →
         start (mkWorld self tr t (replicate k (MStr "getpid") ++ rest))
         = (Block, w_k)).
Proof.
  intros Hinit.
  assert (pid self = getpid ∧ ctrl_url self = cu) as [Hpid Hcu].
  { unfold __init__ in Hinit. case_bool_decide.
    - by injection Hinit as <-.
    - destruct (py_int nw); [by injection Hinit as <- | done]. }
  split; [done|]. intros tr t rest replies w_k.
  assert (E : start (mkWorld self tr t (replicate k (MStr "getpid") ++ rest))
              = for_socket control w_k).
  { rewrite start_enters_control_loop.
    erewrite control_loop_nonterminal; [| | done].
    2:{ apply Forall_replicate. done. }
    unfold advance, w_k, replies. simpl.
    rewrite served_getpid. simpl. rewrite Hpid, Hcu.
    by rewrite <- !app_assoc, Nat.add_0_r. }
  split; [done|]. intros ->. rewrite E. by apply for_socket_empty.
Qed.

(** C10. A command string other than [stop], [kill] and [getpid] gets
    no reply and does not end the control loop: nothing is sent, and
    the loop goes on with the command that follows. *)
Theorem pool_unknown_command_gets_no_reply
    (cmd : string) rest (w : world pool) :
  cmd ≠ "stop" → cmd ≠ "kill" → cmd ≠ "getpid" →
  inbox w = MStr cmd :: rest →
  let w' := advance w [EvRecv (MStr cmd)] 0 rest in
  control (MStr cmd) w' = (Ok Continue, w')
  ∧ sends (trace w') = sends (trace w)
  ∧ for_socket control w = for_socket control w'.
Proof.
  intros Hs Hk Hg Hin w'.
  assert (Hc : control (MStr cmd) w' = (Ok Continue, w')).
  { rewrite control_nonterminal.
    - simpl. rewrite bool_decide_eq_false_2 by done.
      unfold w'. by rewrite advance_advance.
    - split; simpl; by apply bool_decide_eq_false_2. }
  split; [done|]. split.
  - unfold w', advance, sends. simpl. rewrite omap_app. simpl.
    by rewrite app_nil_r.
  - by eapply for_socket_continue.
Qed.


End WorkerPoolFacts.

(** ** The worker loop *)

Section WorkerFacts.
Import WorkerPool.

(** The calls of one pass of the worker loop for a task. *)
Lemma serve_task cmd args mon (w : world ()) :
  serve (MTask cmd args mon) w
  = (Ok Continue,
     advance w [EvOpen (backurl mon) PUSH connect_mode;
                EvSend (backurl mon)
                  (MResult (safely_call cmd args mon));
                EvClose (backurl mon) PUSH] 0 (inbox w)).
Proof.
  unfold serve. msimpl. unfold advance.
  by rewrite <- !app_assoc, Nat.add_0_r.
Qed.

(** The worker serves a task, whatever its callable does, and goes on
    with the next one. *)
Lemma worker_loop_task cmd args mon rest (w : world ()) :
  inbox w = MTask cmd args mon :: rest →
  for_socket serve w
  = for_socket serve
      (advance w [EvRecv (MTask cmd args mon);
                  EvOpen (backurl mon) PUSH connect_mode;
                  EvSend (backurl mon)
                    (MResult (safely_call cmd args mon));
                  EvClose (backurl mon) PUSH] 0 rest).
Proof.
  intros Hin. eapply for_socket_continue; [exact Hin | |done].
  rewrite serve_task. by rewrite advance_advance.
Qed.

(** C4. When the callable of a pulled task raises, the failure is
    captured in a [Failure] result and does not propagate; the result
    is pushed to the [backurl] of the task's Monitor by the same calls
    as a success; and the worker loop goes on to pull the next task. *)
Theorem worker_captures_failure
    cmd args mon etype emsg rest (w : world ()) :
  func_call cmd args mon = Raised etype emsg →
  inbox w = MTask cmd args mon :: rest →
  let pushed (r : TaskResult) :=
    [EvRecv (MTask cmd args mon);
     EvOpen (backurl mon) PUSH connect_mode;
     EvSend (backurl mon) (MResult r);
     EvClose (backurl mon) PUSH] in
  safely_call cmd args mon = Failure etype emsg (func_name cmd)
  ∧ for_socket serve w
    = for_socket serve
        (advance w (pushed (Failure etype emsg (func_name cmd))) 0 rest)
  ∧ worker w
    = for_socket serve
        (advance w (EvProcTitle "oq worker"
                    :: pushed (Failure etype emsg (func_name cmd))) 0 rest)
  ∧ (∀ cmd' v, func_call cmd' args mon = Returned v →
       ∀ w0 : world (), inbox w0 = MTask cmd' args mon :: rest →
         for_socket serve w0
         = for_socket serve
             (advance w0 [EvRecv (MTask cmd' args mon);
                          EvOpen (backurl mon) PUSH connect_mode;
                          EvSend (backurl mon) (MResult (Success v));
                          EvClose (backurl mon) PUSH] 0 rest)).
Proof.
  intros Hraise Hin pushed.
  assert (Hsafe : safely_call cmd args mon
                  = Failure etype emsg (func_name cmd)).
  { unfold safely_call. by rewrite Hraise. }
  split; [done|]. split; [|split].
  - rewrite (worker_loop_task _ _ _ _ _ Hin). by rewrite Hsafe.
  - unfold worker. erewrite bind_ok by apply emit_advance.
    erewrite worker_loop_task by (simpl; exact Hin).
    by rewrite advance_advance, Hsafe.
  - intros cmd' v Hret w0 Hin0.
    rewrite (worker_loop_task _ _ _ _ _ Hin0).
    unfold safely_call. by rewrite Hret.
Qed.

End WorkerFacts.

(** ** The control-plane client *)

Section WorkerMasterFacts.
Context `{Env}.
Import WorkerMaster.

Lemma probe_spec self host (w : world ()) :
  probe self host w
  = (Ok (connect_ex (ticks w) host (ctrl_port self)),
     advance w (probe_events self (ticks w) host) 1 (inbox w)).
Proof.
  unfold probe. msimpl. unfold advance, probe_events.
  by rewrite <- !app_assoc, Nat.add_1_r.
Qed.

Lemma probes_cons self t hc hcs :
  probes self t (hc :: hcs)
  = (probe_events self t hc.1 ++ probes self (S t) hcs)%list.
Proof.
  unfold probes. rewrite imap_cons. simpl. rewrite Nat.add_0_r.
  do 4 f_equal. apply imap_ext. intros i x _. simpl.
  by rewrite Nat.add_succ_r.
Qed.

Lemma probed_cons self t hc hcs :
  probed self t (hc :: hcs)
  = (hc.1, verdict (connect_ex t hc.1 (ctrl_port self)))
    :: probed self (S t) hcs.
Proof.
  unfold probed. rewrite imap_cons. simpl. rewrite Nat.add_0_r.
  f_equal. apply imap_ext. intros i x _. simpl.
  by rewrite Nat.add_succ_r.
Qed.

Lemma probed_fst self t hcs : (probed self t hcs).*1 = hcs.*1.
Proof.
  revert t. induction hcs as [|hc hcs IH]; intros t; [done|].
  rewrite probed_cons, !fmap_cons. f_equal. apply IH.
Qed.

Lemma status_loop_spec self hcs lst (w : world ()) :
  status_loop self hcs lst w
  = (Ok (lst ++ probed self (ticks w) hcs)%list,
     advance w (probes self (ticks w) hcs) (length hcs) (inbox w)).
Proof.
  revert lst w. induction hcs as [|[host cores] hcs IH]; intros lst w.
  - simpl. unfold ret. by rewrite app_nil_r, advance_nil.
  - cbn [status_loop]. erewrite bind_ok by apply probe_spec.
    rewrite IH. rewrite advance_advance, probes_cons, probed_cons.
    simpl. rewrite <- app_assoc, Nat.add_1_r. done.
Qed.

(** The names of the entries that bear the name [h] are the configured
    names equal to [h], in the configured order. *)
Lemma filter_names (h : string) (l : list (string * string)) :
  (filter (λ hc, hc.1 = h) l).*1 = filter (λ n, n = h) (l.*1).
Proof.
  induction l as [|hc l IH]; [done|].
  rewrite fmap_cons, !filter_cons. destruct (decide (hc.1 = h)).
  - by rewrite fmap_cons, IH.
  - done.
Qed.

(** C6. [status(host)] returns one pair per configured host that
    matches the filter: every entry of [host_cores] when there is no
    filter, and otherwise exactly the entries whose host name is the
    given one, each as often as it is configured and in the configured
    order. The pair of a host says [running] when the connection
    attempt returned no error and [not-running] otherwise; and every
    probe closes its socket, whatever the attempt gave. *)
Theorem master_status_probes_each_host self host (w : world ()) :
  let hcs := match host with
             | None => host_cores self
             | Some h => filter (λ hc, hc.1 = h) (host_cores self)
             end in
  status self host w
  = (Ok (probed self (ticks w) hcs),
     advance w (probes self (ticks w) hcs) (length hcs) (inbox w))
  ∧ selected self host = hcs
  ∧ (∀ hc, hc ∈ hcs
           ↔ hc ∈ host_cores self
             ∧ match host with None => True | Some h => hc.1 = h end)
  ∧ hcs `sublist_of` host_cores self
  ∧ hcs.*1 = match host with
             | None => (host_cores self).*1
             | Some h => filter (λ n, n = h) ((host_cores self).*1)
             end
  ∧ (probed self (ticks w) hcs).*1 = hcs.*1
  ∧ selected self None = host_cores self
  ∧ probed self (ticks w) hcs
    = imap (λ i hc,
              let err := connect_ex (ticks w + i) hc.1 (ctrl_port self) in
              (hc.1, if bool_decide (err = 0) then "running"
                     else "not-running")) hcs
  ∧ probes self (ticks w) hcs
    = concat (imap (λ i hc,
                [EvTcpSocket;
                 EvConnectEx hc.1 (ctrl_port self)
                   (connect_ex (ticks w + i) hc.1 (ctrl_port self));
                 EvTcpClose]) hcs).
Proof.
  intros hcs.
  assert (Hsel : selected self host = hcs) by (by destruct host).
  split; [|split; [|split; [|split; [|split; [|split; [|split; [|split]]]]]]].
  - unfold status. by rewrite status_loop_spec, Hsel.
  - exact Hsel.
  - intros hc. subst hcs. destruct host as [h|].
    + rewrite list_elem_of_filter. tauto.
    + tauto.
  - subst hcs. destruct host as [h|]; [apply sublist_filter|done].
  - subst hcs. destruct host as [h|]; [apply filter_names|done].
  - apply probed_fst.
  - done.
  - unfold probed. apply imap_ext. intros i hc _. simpl. unfold verdict.
    repeat case_bool_decide; done.
  - done.
Qed.

Lemma verdict_not_running err :
  bool_decide (verdict err = "not-running") = bool_decide (err ≠ 0).
Proof. unfold verdict. by repeat case_bool_decide. Qed.

Lemma verdict_running err :
  bool_decide (verdict err = "running") = bool_decide (err = 0).
Proof. unfold verdict. by repeat case_bool_decide. Qed.

(** A configured host is among the entries selected by its own name,
    and the first of them bears that name. *)
Lemma selected_member self hc :
  hc ∈ host_cores self →
  ∃ hc0 others, selected self (Some hc.1) = hc0 :: others ∧ hc0.1 = hc.1.
Proof.
  intros Hin. unfold selected.
  assert (Hf : hc ∈ filter (λ x, x.1 = hc.1) (host_cores self))
    by (by apply list_elem_of_filter).
  destruct (filter (λ x, x.1 = hc.1) (host_cores self))
    as [|hc0 others] eqn:E.
  - by apply elem_of_nil in Hf.
  - exists hc0, others. split; [done|].
    assert (Hin0 : hc0 ∈ filter (λ x, x.1 = hc.1) (host_cores self))
      by (rewrite E; apply list_elem_of_here).
    by apply list_elem_of_filter in Hin0 as [? _].
Qed.

(** [self.status(host)[0][1]] for a configured host: the verdict of the
    first probe. *)
Lemma status_first self hc (w : world ()) :
  hc ∈ host_cores self →
  (let! st := status self (Some hc.1) in getitem st 0) w
  = (Ok (hc.1, verdict (connect_ex (ticks w) hc.1 (ctrl_port self))),
     advance w (probes self (ticks w) (selected self (Some hc.1)))
       (length (selected self (Some hc.1))) (inbox w)).
Proof.
  intros Hin. unfold status.
  erewrite bind_ok by apply status_loop_spec.
  destruct (selected_member self hc Hin) as (hc0 & others & -> & E0).
  simpl app. rewrite probed_cons. unfold getitem. simpl.
  by rewrite E0.
Qed.

Lemma send_command_spec self cmd hc (w : world ()) :
  hc ∈ host_cores self →
  let same := selected self (Some hc.1) in
  let t' := (ticks w + length same)%nat in
  let u := ctrl_url_of self hc.1 in
  send_command self cmd hc w
  = if bool_decide (connect_ex (ticks w) hc.1 (ctrl_port self) ≠ 0) then
      (Ok (),
       advance w (probes self (ticks w) same
                  ++ [EvPrint (hc.1 +:+ " not running")])
         (length same) (inbox w))
    else
      (Ok (),
       advance w (probes self (ticks w) same
                  ++ [EvOpen u REQ connect_mode; EvSend u (MStr cmd);
                      EvPrint (req_reply t' u cmd); EvClose u REQ])
         (S (length same)) (inbox w)).
Proof.
  intros Hin same t' u.
  unfold send_command. cbv zeta.
  rewrite <- bind_assoc.
  erewrite bind_ok by (by apply status_first).
  cbn [snd]. rewrite verdict_not_running.
  case_bool_decide.
  - rewrite emit_advance, advance_advance. simpl. by rewrite Nat.add_0_r.
  - unfold req_send. msimpl. unfold advance. simpl.
    rewrite <- !app_assoc. simpl. by rewrite Nat.add_succ_r.
Qed.

(** The loop over the hosts does what [command_trace] says and comes
    to its end. *)
Lemma for_each_send_command self cmd hosts (w : world ()) :
  (∀ hc, hc ∈ hosts → hc ∈ host_cores self) →
  ∃ n, for_each hosts (send_command self cmd) w
       = (Ok (), advance w (command_trace self cmd (ticks w) hosts) n
                   (inbox w)).
Proof.
  revert w. induction hosts as [|hc hosts IH]; intros w Hsub.
  - exists 0%nat. simpl. unfold ret. by rewrite advance_nil.
  - cbn [for_each command_trace].
    rewrite bind_ok with (a := ()) (w' :=
      if bool_decide (connect_ex (ticks w) hc.1 (ctrl_port self) ≠ 0)
      then advance w (probes self (ticks w) (selected self (Some hc.1))
                      ++ [EvPrint (hc.1 +:+ " not running")])
             (length (selected self (Some hc.1))) (inbox w)
      else advance w (probes self (ticks w) (selected self (Some hc.1))
                      ++ [EvOpen (ctrl_url_of self hc.1) REQ connect_mode;
                          EvSend (ctrl_url_of self hc.1) (MStr cmd);
                          EvPrint (req_reply
                                     (ticks w
                                      + length (selected self (Some hc.1)))
                                     (ctrl_url_of self hc.1) cmd);
                          EvClose (ctrl_url_of self hc.1) REQ])
             (S (length (selected self (Some hc.1)))) (inbox w)).
    2:{ rewrite send_command_spec by (apply Hsub, list_elem_of_here).
        by case_bool_decide. }
    case_bool_decide.
    + edestruct IH as [n E]; [|rewrite E].
      { intros hc' Hhc'. by apply Hsub, list_elem_of_further. }
      eexists. rewrite advance_advance. simpl.
      by rewrite <- !app_assoc.
    + edestruct IH as [n E]; [|rewrite E].
      { intros hc' Hhc'. by apply Hsub, list_elem_of_further. }
      eexists. rewrite advance_advance. simpl.
      rewrite <- !app_assoc. simpl. by rewrite Nat.add_succ_r.
Qed.

(** A command is only ever sent to a host for which a probe gave no
    error. *)
Lemma command_trace_sends self cmd t hosts u m :
  (u, m) ∈ sends (command_trace self cmd t hosts) →
  m = MStr cmd
  ∧ ∃ hc t', hc ∈ hosts ∧ u = ctrl_url_of self hc.1
             ∧ connect_ex t' hc.1 (ctrl_port self) = 0.
Proof.
  assert (Hp : ∀ t hcs, sends (probes self t hcs) = []).
  { intros t0 hcs. revert t0.
    induction hcs as [|x hcs IH]; intros t0; [done|].
    rewrite probes_cons, sends_app, IH. done. }
  revert t. induction hosts as [|hc hosts IH]; intros t Hin.
  - by apply elem_of_nil in Hin.
  - cbn [command_trace] in Hin. rewrite sends_app, Hp in Hin.
    simpl app in Hin. case_bool_decide as Herr.
    + change (sends (EvPrint ?s :: ?l)) with (sends l) in Hin.
      destruct (IH _ Hin) as (-> & hc' & t' & Hhc' & Hu & Ht').
      split; [done|]. exists hc', t'.
      split; [by apply list_elem_of_further | done].
    + change (sends (EvOpen ?a ?b ?c :: EvSend ?u0 ?m0 :: EvPrint ?s
                     :: EvClose ?d ?e :: ?l))
        with ((u0, m0) :: sends l) in Hin.
      apply elem_of_cons in Hin as [Heq|Hin].
      * injection Heq as -> ->. split; [done|].
        exists hc, t. split; [apply list_elem_of_here|].
        split; [done|]. exact Herr.
      * destruct (IH _ Hin) as (-> & hc' & t' & Hhc' & Hu & Ht').
        split; [done|]. exists hc', t'.
        split; [by apply list_elem_of_further | done].
Qed.

(** Every host that is probed as not running gets its notice. *)
Lemma command_trace_notices self cmd t hosts hc :
  (∀ t' hc', hc' ∈ hosts → connect_ex t' hc'.1 (ctrl_port self) ≠ 0) →
  hc ∈ hosts →
  EvPrint (hc.1 +:+ " not running") ∈ command_trace self cmd t hosts.
Proof.
  revert t. induction hosts as [|hc0 hosts IH]; intros t Hdown Hin.
  - by apply elem_of_nil in Hin.
  - cbn [command_trace]. apply elem_of_app. right.
    rewrite bool_decide_eq_true_2 by (apply Hdown, list_elem_of_here).
    apply elem_of_cons in Hin as [->|Hin].
    + apply list_elem_of_here.
    + apply list_elem_of_further, IH; [|done].
      intros t' hc' Hhc'. by apply Hdown, list_elem_of_further.
Qed.

(** C8. [stop()] and [kill()] return their status string in every
    case and never raise; a configured host that is not running is
    skipped with a notice, and the command is sent to the hosts that
    are running and to no other. *)
Theorem master_stop_kill_skip_not_running self (w : world ()) :
  (∃ w', stop self w = (Ok "stopped", w')
         ∧ trace w' = (trace w ++ command_trace self "stop" (ticks w)
                                    (host_cores self))%list)
  ∧ (∃ w', kill self w = (Ok "killed", w')
           ∧ trace w' = (trace w ++ command_trace self "kill" (ticks w)
                                      (host_cores self))%list)
  ∧ (∀ cmd t u m,
       (u, m) ∈ sends (command_trace self cmd t (host_cores self)) →
       m = MStr cmd
       ∧ ∃ hc t', hc ∈ host_cores self ∧ u = ctrl_url_of self hc.1
                  ∧ connect_ex t' hc.1 (ctrl_port self) = 0)
  ∧ (∀ cmd t,
       (∀ t' hc, hc ∈ host_cores self →
                 connect_ex t' hc.1 (ctrl_port self) ≠ 0) →
       sends (command_trace self cmd t (host_cores self)) = []
       ∧ Forall (λ hc, EvPrint (hc.1 +:+ " not running")
                        ∈ command_trace self cmd t (host_cores self))
           (host_cores self)).
Proof.
  split; [|split; [|split]].
  - destruct (for_each_send_command self "stop" (host_cores self) w)
      as [n E]; [done|].
    eexists. split.
    + change (stop self) with
        (do! for_each (host_cores self) (send_command self "stop") in
         ret "stopped").
      erewrite bind_ok by exact E. reflexivity.
    + done.
  - destruct (for_each_send_command self "kill" (host_cores self) w)
      as [n E]; [done|].
    eexists. split.
    + change (kill self) with
        (do! for_each (host_cores self) (send_command self "kill") in
         ret "killed").
      erewrite bind_ok by exact E. reflexivity.
    + done.
  - intros cmd t u m. apply command_trace_sends.
  - intros cmd t Hdown. split.
    + destruct (sends (command_trace self cmd t (host_cores self)))
        as [|[u m] l] eqn:E; [done|].
      destruct (command_trace_sends self cmd t (host_cores self) u m)
        as (_ & hc & t' & Hhc & _ & Ht').
      { rewrite E. apply list_elem_of_here. }
      by destruct (Hdown t' hc Hhc).
    + apply Forall_forall. intros hc Hhc%list_elem_of_In.
      apply command_trace_notices; [|done].
      intros t' hc' Hhc'. by apply Hdown.
Qed.

Lemma launches_app tr1 tr2 :
  launches (tr1 ++ tr2) = (launches tr1 ++ launches tr2)%list.
Proof. apply omap_app. Qed.

Lemma launches_probes self t hcs : launches (probes self t hcs) = [].
Proof.
  revert t. induction hcs as [|x hcs IH]; intros t; [done|].
  by rewrite probes_cons, launches_app, IH.
Qed.

(** While every probe succeeds, the loop of [start] prints its notice
    for each host, launches nothing, and never assigns [ctrl_url]. *)
Lemma start_loop_all_running self hosts cu (w : world ()) :
  (∀ t hc, hc ∈ host_cores self →
           connect_ex t hc.1 (ctrl_port self) = 0) →
  (∀ hc, hc ∈ hosts → hc ∈ host_cores self) →
  ∃ evs n,
    start_loop self hosts cu w = (Ok cu, advance w evs n (inbox w))
    ∧ launches evs = []
    ∧ ∀ hc, hc ∈ hosts → EvPrint (hc.1 +:+ " already running") ∈ evs.
Proof.
  intros Hup. revert w. induction hosts as [|hc hosts IH]; intros w Hsub.
  - exists [], 0%nat. simpl. unfold ret. rewrite advance_nil.
    split; [done|]. split; [done|]. intros hc Hhc.
    by apply elem_of_nil in Hhc.
  - assert (Hhc : hc ∈ host_cores self) by apply Hsub, list_elem_of_here.
    cbn [start_loop]. destruct hc as [host cores].
    rewrite <- bind_assoc.
    erewrite bind_ok by (by apply (status_first self (host, cores))).
    cbn [snd fst]. rewrite verdict_running.
    rewrite bool_decide_eq_true_2 by (by apply (Hup _ (host, cores))).
    erewrite bind_ok by apply emit_advance.
    match goal with
    | |- context [start_loop self hosts cu ?w1] =>
        destruct (IH w1) as (evs & n & E & Hl & Hn); [|rewrite E]
    end.
    { intros hc' Hhc'. by apply Hsub, list_elem_of_further. }
    rewrite !advance_advance. eexists _, _. split; [done|]. split.
    + rewrite !launches_app, launches_probes, Hl. done.
    + intros hc' [->|Hhc']%elem_of_cons.
      * rewrite !elem_of_app, elem_of_cons. auto.
      * rewrite !elem_of_app. auto.
Qed.

(** C3. The call [start()] on a master all of whose hosts are already
    running prints the notice of every host and launches nothing, but
    does not return its status string: its last line reads the local
    variable [ctrl_url], which only a launch assigns, and raises
    [UnboundLocalError]. *)
Theorem master_start_raises_when_all_running self (w : world ()) :
  (∀ t hc, hc ∈ host_cores self →
           connect_ex t hc.1 (ctrl_port self) = 0) →
  ∃ w',
    start self w = (Raise (UnboundLocalError "ctrl_url"), w')
    ∧ launches (trace w') = launches (trace w)
    ∧ ∀ hc, hc ∈ host_cores self →
        EvPrint (hc.1 +:+ " already running") ∈ trace w'.
Proof.
  intros Hup.
  destruct (start_loop_all_running self (host_cores self) None w Hup)
    as (evs & n & E & Hl & Hn); [done|].
  eexists. unfold start. erewrite bind_ok by exact E.
  split; [reflexivity|]. simpl. split.
  - by rewrite launches_app, Hl, app_nil_r.
  - intros hc Hhc. apply elem_of_app. right. by apply Hn.
Qed.

End WorkerMasterFacts.

(** * The properties at concrete inputs *)

Section Samples.
Local Existing Instance sample_env.

(** Two tasks are submitted and two results arrive. *)
Lemma starmap_count_announced_then_results_witness :
  ∃ w2,
    Starmap.islice 4
      (Starmap._starmap sample_add sample_iterargs
         "tcp://10.0.0.1:1907" "tcp://10.0.0.1:1912-1920")
      sample_submitter
    = (Ok ([MInt 2; MResult (Success (VInt 7)); MResult (Success (VInt 3))],
           Starmap.Finished), w2)
    ∧ length (sends (trace w2)) = 2%nat
    ∧ recvs (trace w2)
      = [MResult (Success (VInt 7)); MResult (Success (VInt 3))].
Proof.
  destruct (starmap_count_announced_then_results sample_add sample_iterargs
              "tcp://10.0.0.1:1907" "tcp://10.0.0.1:1912-1920"
              sample_submitter) as [_ Hrun].
  destruct Hrun as (w2 & E & _ & Hs & Hr & _); [simpl; lia|].
  exists w2. split; [exact E|]. split; [exact Hs | exact Hr].
Defined.

(** Both tasks carry the discovered address of the reply socket. *)
Lemma starmap_backurl_is_bound_end_point_witness :
  ∃ w1,
    trace w1
    = [EvOpen "tcp://10.0.0.1:1912-1920" PULL bind_mode;
       EvOpen "tcp://10.0.0.1:1907" PUSH connect_mode;
       EvSend "tcp://10.0.0.1:1907"
         (MTask sample_add [VInt 1; VInt 2]
            (mkMonitor "classical" "tcp://10.0.0.1:1912"));
       EvSend "tcp://10.0.0.1:1907"
         (MTask sample_add [VInt 3; VInt 4]
            (mkMonitor "classical" "tcp://10.0.0.1:1912"))]
    ∧ backurl (objs w1 0%nat) = "tcp://10.0.0.1:1912".
Proof.
  destruct (starmap_backurl_is_bound_end_point sample_add sample_iterargs
              "tcp://10.0.0.1:1907" "tcp://10.0.0.1:1912-1920"
              sample_submitter) as (w1 & _ & Htr & Hmon & _).
  exists w1. split; [exact Htr|].
  apply (Hmon (mkArgs [VInt 1; VInt 2] 0%nat)). apply list_elem_of_here.
Defined.

(** A pool of two workers is asked for its pid, told to stop, and asked
    again: the second request is never read. *)
Lemma pool_stop_kill_is_terminal_witness :
  ∃ w',
    WorkerPool.start
      (mkWorld sample_pool [] 0 [MStr "getpid"; MStr "stop"; MStr "getpid"])
    = (Ok (), w')
    ∧ trace w'
      = [EvProcTitle "oq workerpool"; EvSpawn 5000; EvSpawn 5001;
         EvRecv (MStr "getpid"); EvSend "tcp://0.0.0.0:1909" (MInt 4242);
         EvRecv (MStr "stop"); EvKill 5000 SIGINT; EvKill 5001 SIGINT;
         EvSend "tcp://0.0.0.0:1909"
           (MStr "WorkerPool tcp://0.0.0.0:1909 stopped")]
    ∧ inbox w' = [MStr "getpid"].
Proof.
  destruct (pool_stop_kill_is_terminal SIGINT sample_pool [] 0
              [MStr "getpid"] [MStr "getpid"])
    as (w' & E & Htr & _ & Hin).
  - repeat constructor.
  - exists w'. split; [exact E|]. split; [exact Htr | exact Hin].
Defined.

(** With [node1] running, [start()] of the master of [node1] alone
    raises. *)
Lemma master_start_raises_when_all_running_witness :
  ∃ w',
    WorkerMaster.start sample_master_up (mkWorld () [] 0 [])
    = (Raise (UnboundLocalError "ctrl_url"), w')
    ∧ launches (trace w') = [].
Proof.
  destruct (master_start_raises_when_all_running sample_master_up
              (mkWorld () [] 0 [])) as (w' & E & Hl & _).
  - intros t hc Hhc. apply list_elem_of_singleton in Hhc. subst hc.
    reflexivity.
  - exists w'. split; [exact E | exact Hl].
Defined.

(** A task that fails is answered with a failure, and the task that
    follows is served. *)
Lemma worker_captures_failure_witness :
  WorkerPool.worker
    (mkWorld () [] 0
       [MTask sample_fail [] (mkMonitor "classical" "tcp://10.0.0.1:1912");
        MTask sample_add [VInt 1; VInt 2]
          (mkMonitor "classical" "tcp://10.0.0.1:1912")])
  = (Block,
     mkWorld ()
       [EvProcTitle "oq worker";
        EvRecv (MTask sample_fail []
                  (mkMonitor "classical" "tcp://10.0.0.1:1912"));
        EvOpen "tcp://10.0.0.1:1912" PUSH connect_mode;
        EvSend "tcp://10.0.0.1:1912"
          (MResult (Failure "ValueError" "no such source" "fail"));
        EvClose "tcp://10.0.0.1:1912" PUSH;
        EvRecv (MTask sample_add [VInt 1; VInt 2]
                  (mkMonitor "classical" "tcp://10.0.0.1:1912"));
        EvOpen "tcp://10.0.0.1:1912" PUSH connect_mode;
        EvSend "tcp://10.0.0.1:1912" (MResult (Success (VInt 3)));
        EvClose "tcp://10.0.0.1:1912" PUSH]
       0 []).
Proof.
  destruct (worker_captures_failure sample_fail []
              (mkMonitor "classical" "tcp://10.0.0.1:1912")
              "ValueError" "no such source"
              [MTask sample_add [VInt 1; VInt 2]
                 (mkMonitor "classical" "tcp://10.0.0.1:1912")]
              (mkWorld () [] 0
                 [MTask sample_fail []
                    (mkMonitor "classical" "tcp://10.0.0.1:1912");
                  MTask sample_add [VInt 1; VInt 2]
                    (mkMonitor "classical" "tcp://10.0.0.1:1912")]))
    as (_ & _ & E & _).
  - reflexivity.
  - reflexivity.
  - rewrite E. reflexivity.
Defined.

(** Three requests [getpid] get the pid 4242 three times, and the pool
    waits for more. *)
Lemma pool_getpid_repeated_witness :
  ∃ w',
    WorkerPool.start
      (mkWorld sample_pool [] 0 (replicate 3 (MStr "getpid")))
    = (Block, w')
    ∧ sends (trace w')
      = replicate 3 ("tcp://0.0.0.0:1909", MInt 4242).
Proof.
  destruct (pool_getpid_repeated "tcp://0.0.0.0:1909" "tcp://10.0.0.1:1908"
              "2" sample_pool 3) as [_ Hrun].
  - reflexivity.
  - destruct (Hrun [] 0%nat []) as [_ Hblock].
    eexists. split; [apply Hblock; reflexivity | reflexivity].
Defined.

(** The unknown command [status] is read and not answered. *)
Lemma pool_unknown_command_gets_no_reply_witness :
  for_socket WorkerPool.control
    (mkWorld sample_pool [] 0 [MStr "status"; MStr "getpid"])
  = for_socket WorkerPool.control
      (mkWorld sample_pool [EvRecv (MStr "status")] 0 [MStr "getpid"]).
Proof.
  destruct (pool_unknown_command_gets_no_reply "status" [MStr "getpid"]
              (mkWorld sample_pool [] 0 [MStr "status"; MStr "getpid"]))
    as (_ & _ & E); [done | done | done | reflexivity |].
  exact E.
Defined.

(** The command [stop] reaches [node1] and not the local host. *)
Lemma master_stop_kill_skip_not_running_witness :
  ∃ w',
    WorkerMaster.stop sample_master (mkWorld () [] 0 []) = (Ok "stopped", w')
    ∧ trace w'
      = [EvTcpSocket; EvConnectEx "node1" 1909 0; EvTcpClose;
         EvOpen "tcp://node1:1909" REQ connect_mode;
         EvSend "tcp://node1:1909" (MStr "stop");
         EvPrint "WorkerPool tcp://node1:1909 stopped";
         EvClose "tcp://node1:1909" REQ;
         EvTcpSocket; EvConnectEx "127.0.0.1" 1909 111; EvTcpClose;
         EvPrint "127.0.0.1 not running"].
Proof.
  destruct (master_stop_kill_skip_not_running sample_master
              (mkWorld () [] 0 [])) as [(w' & E & Htr) _].
  exists w'. split; [exact E | exact Htr].
Defined.


(** [start()] of the master of both hosts skips [node1], launches the
    pool of the local host and returns. *)
Example master_start_launches_local_pool :
  WorkerMaster.start sample_master (mkWorld () [] 0 [])
  = (Ok "tcp://127.0.0.1:1909 started",
     mkWorld ()
       [EvTcpSocket; EvConnectEx "node1" 1909 0; EvTcpClose;
        EvPrint "node1 already running";
        EvTcpSocket; EvConnectEx "127.0.0.1" 1909 111; EvTcpClose;
        EvPrint ("starting /usr/bin/python -m openquake.baselib.workerpool"
                 +:+ " tcp://127.0.0.1:1909 tcp://10.0.0.1:1908 2");
        EvPopen ["/usr/bin/python"; "-m"; "openquake.baselib.workerpool";
                 "tcp://127.0.0.1:1909"; "tcp://10.0.0.1:1908"; "2"]]
       2 []).
Proof. reflexivity. Qed.

(** The same call on the master of [node1] alone: the notice is
    printed, nothing is launched, and the last line raises. *)
Example master_start_all_running_trace :
  WorkerMaster.start sample_master_up (mkWorld () [] 0 [])
  = (Raise (UnboundLocalError "ctrl_url"),
     mkWorld ()
       [EvTcpSocket; EvConnectEx "node1" 1909 0; EvTcpClose;
        EvPrint "node1 already running"]
       1 []).
Proof. reflexivity. Qed.

(** A number of workers below zero starts no worker. *)
Example pool_negative_count_starts_none :
  WorkerPool.__init__ "tcp://0.0.0.0:1909" "tcp://10.0.0.1:1908" "-2"
  = Ok (WorkerPool.mkPool "tcp://0.0.0.0:1909" "tcp://10.0.0.1:1908"
          (-2) 4242 None)
  ∧ spawned (trace (WorkerPool.start
               (mkWorld (WorkerPool.mkPool "tcp://0.0.0.0:1909"
                           "tcp://10.0.0.1:1908" (-2) 4242 None)
                  [] 0 [])).2)
    = [].
Proof. split; reflexivity. Qed.

End Samples.

(** * Further properties of the code *)

(** ** [WorkerMaster.start] and [WorkerMaster.status] *)

Section MasterCoverage.
Context `{Env}.
Import WorkerMaster.

(** The loop of [start] on any part of the configured hosts: it launches
    the entries found not running, in order, and leaves in [ctrl_url] the
    url of the last of them. *)
Lemma start_loop_spec self hosts cu (w : world ()) :
  (∀ hc, hc ∈ hosts → hc ∈ host_cores self) →
  ∃ evs n,
    start_loop self hosts cu w
    = (Ok (match list.last (to_launch self (ticks w) hosts) with
           | Some hc => Some (ctrl_url_of self hc.1)
           | None => cu
           end),
       advance w evs n (inbox w))
    ∧ launches evs = launch_argv self <$> to_launch self (ticks w) hosts.
Proof.
  revert cu w. induction hosts as [|hc hosts IH]; intros cu w Hsub.
  - exists [], 0%nat. simpl. unfold ret. by rewrite advance_nil.
  - assert (Hhc : hc ∈ host_cores self) by apply Hsub, list_elem_of_here.
    assert (Hrest : ∀ hc', hc' ∈ hosts → hc' ∈ host_cores self).
    { intros hc' Hhc'. by apply Hsub, list_elem_of_further. }
    cbn [start_loop to_launch]. destruct hc as [host cores].
    rewrite <- bind_assoc.
    erewrite bind_ok by (by apply (status_first self (host, cores))).
    cbn [snd fst]. rewrite verdict_running.
    case_bool_decide as Herr.
    + erewrite bind_ok by apply emit_advance.
      match goal with
      | |- context [start_loop self hosts cu ?w1] =>
          destruct (IH cu w1 Hrest) as (evs & n & E & Hl); rewrite E
      end.
      rewrite !advance_advance. simpl ticks in *.
      rewrite Nat.add_0_r in *. eexists _, _. split; [done|].
      rewrite !launches_app, launches_probes, Hl. done.
    + cbv zeta.
      erewrite bind_ok by apply emit_advance.
      erewrite bind_ok by apply emit_advance.
      match goal with
      | |- context [start_loop self hosts ?cu1 ?w1] =>
          destruct (IH cu1 w1 Hrest) as (evs & n & E & Hl); rewrite E
      end.
      rewrite !advance_advance. simpl ticks in *.
      rewrite !Nat.add_0_r in *. eexists _, _. split.
      * rewrite last_cons.
        by destruct (list.last (to_launch self _ hosts)).
      * rewrite !launches_app, launches_probes, Hl. done.
Qed.

Lemma to_launch_sublist self t hosts :
  to_launch self t hosts `sublist_of` hosts.
Proof.
  revert t. induction hosts as [|hc hosts IH]; intros t; [done|].
  cbn [to_launch]. case_bool_decide.
  - by apply sublist_cons.
  - by apply sublist_skip.
Qed.

Lemma to_launch_down self t hosts hc :
  hc ∈ to_launch self t hosts →
  ∃ t', connect_ex t' hc.1 (ctrl_port self) ≠ 0.
Proof.
  revert t. induction hosts as [|hc0 hosts IH]; intros t Hin.
  - by apply elem_of_nil in Hin.
  - cbn [to_launch] in Hin. case_bool_decide as Herr.
    + by eapply IH.
    + apply elem_of_cons in Hin as [->|Hin]; [by exists t | by eapply IH].
Qed.

Lemma to_launch_all_down self t hosts :
  (∀ t' hc, hc ∈ hosts → connect_ex t' hc.1 (ctrl_port self) ≠ 0) →
  to_launch self t hosts = hosts.
Proof.
  revert t. induction hosts as [|hc hosts IH]; intros t Hdown; [done|].
  cbn [to_launch].
  rewrite bool_decide_eq_false_2 by (apply Hdown, list_elem_of_here).
  f_equal. apply IH. intros t' hc' Hhc'.
  by apply Hdown, list_elem_of_further.
Qed.

Lemma to_launch_all_up self t hosts :
  (∀ t' hc, hc ∈ hosts → connect_ex t' hc.1 (ctrl_port self) = 0) →
  to_launch self t hosts = [].
Proof.
  revert t. induction hosts as [|hc hosts IH]; intros t Hup; [done|].
  cbn [to_launch].
  rewrite bool_decide_eq_true_2 by (apply Hup, list_elem_of_here).
  apply IH. intros t' hc' Hhc'. by apply Hup, list_elem_of_further.
Qed.

(** X1. [start()] returns normally exactly when it launches at least
    one pool, and the string it returns names the control url of the
    last pool launched, not of every pool. *)
Theorem master_start_returns_last_launched self (w : world ()) :
  let launched := to_launch self (ticks w) (host_cores self) in
  (start self w).1
  = match list.last launched with
    | Some hc => Ok (ctrl_url_of self hc.1 +:+ " started")
    | None => Raise (UnboundLocalError "ctrl_url")
    end
  ∧ (launched ≠ [] → ∃ u, (start self w).1 = Ok (u +:+ " started"))
  ∧ (launched = [] →
     (start self w).1 = Raise (UnboundLocalError "ctrl_url")).
Proof.
  intros launched.
  destruct (start_loop_spec self (host_cores self) None w)
    as (evs & n & E & _); [done|].
  assert (Hres : (start self w).1
    = match list.last launched with
      | Some hc => Ok (ctrl_url_of self hc.1 +:+ " started")
      | None => Raise (UnboundLocalError "ctrl_url")
      end).
  { unfold start. erewrite bind_ok by exact E. fold launched.
    by destruct (list.last launched). }
  split; [done|]. rewrite Hres. split.
  - intros Hne. apply last_is_Some in Hne as [hc ->]. by eexists.
  - by intros ->.
Qed.

(** X2. [start()] launches one pool for each configured entry that it
    finds not running, in the configured order, and nothing else: the
    entries launched are a sub-list of the configured ones, each had a
    failed probe, and when no probe succeeds every entry is launched
    exactly once. The local host is launched directly and every other
    host through ssh. *)
Theorem master_start_launches_down_hosts self (w : world ()) :
  let launched := to_launch self (ticks w) (host_cores self) in
  launches (trace (start self w).2)
  = (launches (trace w) ++ (launch_argv self <$> launched))%list
  ∧ launched `sublist_of` host_cores self
  ∧ (∀ hc, hc ∈ launched →
       ∃ t', connect_ex t' hc.1 (ctrl_port self) ≠ 0)
  ∧ ((∀ t' hc, hc ∈ host_cores self →
               connect_ex t' hc.1 (ctrl_port self) ≠ 0) →
     launched = host_cores self)
  ∧ (∀ hc, launch_argv self hc
           = if bool_decide (hc.1 = "127.0.0.1") then
               [sys_executable; "-m"; "openquake.baselib.workerpool";
                ctrl_url_of self hc.1; task_out_url self; hc.2]
             else
               ["ssh"; hc.1; remote_python self; "-m";
                "openquake.baselib.workerpool";
                ctrl_url_of self hc.1; task_out_url self; hc.2]).
Proof.
  intros launched.
  destruct (start_loop_spec self (host_cores self) None w)
    as (evs & n & E & Hl); [done|].
  split; [|split; [|split; [|split]]].
  - unfold start. erewrite bind_ok by exact E.
    destruct (list.last _); simpl; by rewrite launches_app, Hl.
  - apply to_launch_sublist.
  - intros hc. apply to_launch_down.
  - apply to_launch_all_down.
  - intros hc. unfold launch_argv. by case_bool_decide.
Qed.

(** X3. [status(host)] for a host that is not configured returns the
    empty list and makes no call at all. *)
Theorem master_status_unknown_host self host (w : world ()) :
  host ∉ (host_cores self).*1 →
  status self (Some host) w = (Ok [], w).
Proof.
  intros Hnot. unfold status.
  assert (Hsel : selected self (Some host) = []).
  { unfold selected.
    destruct (filter (λ hc, hc.1 = host) (host_cores self))
      as [|hc l] eqn:E; [done|].
    assert (Hin : hc ∈ filter (λ hc, hc.1 = host) (host_cores self))
      by (rewrite E; apply list_elem_of_here).
    apply list_elem_of_filter in Hin as [<- Hin].
    exfalso. apply Hnot. apply list_elem_of_fmap. by exists hc. }
  rewrite Hsel. reflexivity.
Qed.

Lemma opens_app tr1 tr2 : opens (tr1 ++ tr2) = (opens tr1 ++ opens tr2)%list.
Proof. apply omap_app. Qed.

Lemma closes_app tr1 tr2 :
  closes (tr1 ++ tr2) = (closes tr1 ++ closes tr2)%list.
Proof. apply omap_app. Qed.

Lemma tcp_created_app tr1 tr2 :
  tcp_created (tr1 ++ tr2) = (tcp_created tr1 + tcp_created tr2)%nat.
Proof. unfold tcp_created. by rewrite omap_app, length_app. Qed.

Lemma tcp_closed_app tr1 tr2 :
  tcp_closed (tr1 ++ tr2) = (tcp_closed tr1 + tcp_closed tr2)%nat.
Proof. unfold tcp_closed. by rewrite omap_app, length_app. Qed.

Lemma probes_sockets self t hcs :
  opens (probes self t hcs) = [] ∧ closes (probes self t hcs) = []
  ∧ sends (probes self t hcs) = []
  ∧ tcp_created (probes self t hcs) = length hcs
  ∧ tcp_closed (probes self t hcs) = length hcs.
Proof.
  revert t. induction hcs as [|hc hcs IH]; intros t; [done|].
  destruct (IH (S t)) as (Ho & Hc & Hs & Hn & Hm).
  rewrite probes_cons, opens_app, closes_app, sends_app,
    tcp_created_app, tcp_closed_app, Ho, Hc, Hs, Hn, Hm.
  done.
Qed.

Lemma command_trace_round_trips self cmd t hosts :
  req_round_trips (command_trace self cmd t hosts).
Proof.
  revert t. induction hosts as [|hc hosts IH]; intros t; [done|].
  cbn [command_trace].
  destruct (probes_sockets self t (selected self (Some hc.1)))
    as (Ho & Hc & Hs & Hn & Hm).
  unfold req_round_trips.
  rewrite opens_app, closes_app, sends_app, tcp_created_app,
    tcp_closed_app, Ho, Hc, Hs, Hn, Hm.
  case_bool_decide.
  - destruct (IH (t + length (selected self (Some hc.1)))%nat)
      as (Ho' & Hc' & Hn').
    split; [exact Ho'|]. split; [exact Hc'|].
    change (tcp_created (EvPrint ?x :: ?l)) with (tcp_created l).
    change (tcp_closed (EvPrint ?x :: ?l)) with (tcp_closed l).
    by rewrite Hn'.
  - destruct (IH (S (t + length (selected self (Some hc.1)))))
      as (Ho' & Hc' & Hn').
    rewrite opens_app, closes_app, sends_app, tcp_created_app,
      tcp_closed_app, Ho', Hc', Hn'.
    done.
Qed.

(** X4. [stop()] and [kill()] open one REQ socket per command they send
    and close every one of them, and every TCP socket that their probes
    create is closed: no call leaves a socket open. *)
Theorem master_stop_kill_leave_no_socket_open self (w : world ()) :
  req_round_trips (drop (length (trace w)) (trace (stop self w).2))
  ∧ req_round_trips (drop (length (trace w)) (trace (kill self w).2)).
Proof.
  split.
  - destruct (for_each_send_command self "stop" (host_cores self) w)
      as [n E]; [done|].
    change (stop self) with
      (do! for_each (host_cores self) (send_command self "stop") in
       ret "stopped").
    erewrite bind_ok by exact E. simpl. rewrite drop_app_length.
    apply command_trace_round_trips.
  - destruct (for_each_send_command self "kill" (host_cores self) w)
      as [n E]; [done|].
    change (kill self) with
      (do! for_each (host_cores self) (send_command self "kill") in
       ret "killed").
    erewrite bind_ok by exact E. simpl. rewrite drop_app_length.
    apply command_trace_round_trips.
Qed.

End MasterCoverage.

(** ** The control loop of [WorkerPool.start] on any sequence of
    messages *)

Section PoolCoverage.
Context `{Env}.
Import WorkerPool.

Lemma omap_length_le {A B} (f : A → option B) (l : list A) :
  (length (omap f l) ≤ length l)%nat.
Proof.
  induction l as [|x l IH]; [done|].
  change (omap f (x :: l))
    with (match f x with Some y => y :: omap f l | None => omap f l end).
  destruct (f x); simpl; lia.
Qed.

Lemma kills_app tr1 tr2 : kills (tr1 ++ tr2) = (kills tr1 ++ kills tr2)%list.
Proof. apply omap_app. Qed.

Lemma observe_kills sig (ws : list handle) :
  kills ((λ h, EvKill (sock_pid h) sig) <$> ws)
  = (λ h, (sock_pid h, sig)) <$> ws
  ∧ sends ((λ h, EvKill (sock_pid h) sig) <$> ws) = []
  ∧ recvs ((λ h, EvKill (sock_pid h) sig) <$> ws) = [].
Proof.
  induction ws as [|h ws (IHk & IHs & IHr)]; [done|].
  split; [|split]; [|exact IHs | exact IHr].
  rewrite !fmap_cons.
  change (kills (EvKill ?p ?s :: ?l)) with ((p, s) :: kills l).
  by rewrite IHk.
Qed.

Lemma observe_spawns (ws : list handle) :
  kills ((λ h, EvSpawn (sock_pid h)) <$> ws) = []
  ∧ sends ((λ h, EvSpawn (sock_pid h)) <$> ws) = []
  ∧ recvs ((λ h, EvSpawn (sock_pid h)) <$> ws) = [].
Proof. by induction ws as [|h ws (IHk & IHs & IHr)]. Qed.

Lemma terminal_false m : terminal m = false ↔ nonterminal m.
Proof. unfold terminal, nonterminal. apply orb_false_iff. Qed.

Lemma terminal_true m :
  terminal m = true → ∃ sig, m = MStr (command_of sig).
Proof.
  unfold terminal. intros [Hs|Hk]%orb_true_iff.
  - exists SIGINT. by apply msg_eq_true.
  - exists SIGTERM. by apply msg_eq_true.
Qed.

(** What the control loop does with the messages [inb], for a pool
    whose workers are [ws]. *)
Lemma control_loop_spec ws inb (w : world pool) :
  workers (objs w) = Some ws →
  inbox w = inb →
  ∃ evs,
    for_socket control w
    = (if existsb terminal inb then Ok () else Block,
       advance w evs 0 (drop (length (served_prefix inb)) inb))
    ∧ recvs evs = served_prefix inb
    ∧ sends evs
      = (λ m, (ctrl_url (objs w), m))
          <$> omap (reply_to (objs w)) (served_prefix inb)
    ∧ kills evs
      = match list.last (served_prefix inb) ≫= signal_of with
        | Some sig => (λ h, (sock_pid h, sig)) <$> ws
        | None => []
        end.
Proof.
  revert w. induction inb as [|m inb IH]; intros w Hws Hin.
  - exists []. rewrite for_socket_empty by done. simpl.
    by rewrite <- Hin, advance_nil.
  - cbn [served_prefix existsb]. destruct (terminal m) eqn:Hterm.
    + destruct (terminal_true m Hterm) as [sig ->].
      erewrite for_socket_break;
        [| exact Hin | by apply control_signal].
      rewrite advance_advance. eexists. split; [reflexivity|].
      destruct (observe_kills sig ws) as (Hk & Hs & Hr).
      change (EvRecv ?x :: ?l ++ ?l') with ([EvRecv x] ++ l ++ l')%list.
      rewrite !recvs_app, !sends_app, !kills_app, Hk, Hs, Hr.
      destruct sig; simpl; by rewrite app_nil_r.
    + apply terminal_false in Hterm as Hnt.
      erewrite for_socket_continue;
        [| exact Hin | by apply control_nonterminal | done].
      rewrite advance_advance.
      match goal with
      | |- context [for_socket control ?w1] =>
          destruct (IH w1) as (evs & E & Hr & Hs & Hk); [done | done |];
          rewrite E
      end.
      rewrite advance_advance. simpl orb.
      eexists. split; [reflexivity|].
      destruct Hnt as [Hstop Hkill].
      repeat change (objs (advance ?a ?b ?c ?d)) with (objs a) in *.
      rewrite recvs_app, sends_app, kills_app, Hr, Hs, Hk.
      change (omap ?f (m :: ?l))
        with (match f m with Some y => y :: omap f l | None => omap f l end).
      assert (Hlast : list.last (m :: served_prefix inb) ≫= signal_of
                      = list.last (served_prefix inb) ≫= signal_of).
      { destruct (served_prefix inb) as [|m' l]; [|done].
        simpl. unfold signal_of. by rewrite Hstop, Hkill. }
      rewrite Hlast. unfold reply_to at 2. rewrite Hstop, Hkill.
      unfold served. destruct (msg_eq m "getpid"); done.
Qed.

(** [start] on any messages, seen from the world in which its control
    loop begins. *)
Lemma start_spec self tr t inb :
  ∃ evs,
    start (mkWorld self tr t inb)
    = (if existsb terminal inb then Ok () else Block,
       mkWorld (set_workers (handles self t) self)
         ((tr ++ EvProcTitle "oq workerpool"
              :: ((λ h, EvSpawn (sock_pid h)) <$> handles self t)) ++ evs)
         (t + Z.to_nat (num_workers self))
         (drop (length (served_prefix inb)) inb))
    ∧ recvs evs = served_prefix inb
    ∧ sends evs
      = (λ m, (ctrl_url self, m)) <$> omap (reply_to self) (served_prefix inb)
    ∧ kills evs
      = match list.last (served_prefix inb) ≫= signal_of with
        | Some sig => (λ h, (sock_pid h, sig)) <$> handles self t
        | None => []
        end.
Proof.
  rewrite start_enters_control_loop.
  match goal with
  | |- context [for_socket control ?w0] =>
      destruct (control_loop_spec (handles self t) inb w0)
        as (evs & E & Hr & Hs & Hk); [done | done |]
  end.
  exists evs. rewrite E. unfold advance. simpl.
  by rewrite Nat.add_0_r.
Qed.

Lemma served_prefix_nonterminal inb :
  Forall nonterminal inb →
  served_prefix inb = inb ∧ list.last inb ≫= signal_of = None.
Proof.
  induction 1 as [|m inb Hm _ [IHp IHl]]; [done|].
  cbn [served_prefix].
  rewrite (proj2 (terminal_false m) Hm), IHp. split; [done|].
  rewrite last_cons. destruct (list.last inb) as [m'|]; [done|].
  simpl. unfold signal_of. destruct Hm as [-> ->]. done.
Qed.

(** X5. The supervisor runs until it is told to stop: [start] returns
    when a [stop] or a [kill] is among the messages, it waits for ever
    when there is none, and it never raises; the messages after the first
    [stop] or [kill] are left unread. *)
Theorem pool_runs_until_stop_or_kill self tr t inb :
  (start (mkWorld self tr t inb)).1
  = (if existsb terminal inb then Ok () else Block)
  ∧ inbox (start (mkWorld self tr t inb)).2
    = drop (length (served_prefix inb)) inb
  ∧ (existsb terminal inb = true
     ↔ MStr "stop" ∈ inb ∨ MStr "kill" ∈ inb).
Proof.
  destruct (start_spec self tr t inb) as (evs & E & _).
  rewrite E. split; [done|]. split; [done|].
  rewrite existsb_exists. split.
  - intros (m & Hin%list_elem_of_In & Hterm).
    destruct (terminal_true m Hterm) as [[] ->]; auto.
  - intros [Hin|Hin]; eexists; (split; [by apply list_elem_of_In|done]).
Qed.

(** X6. For every sequence of messages the supervisor reads the
    messages up to the first [stop] or [kill] and no further, and it
    sends exactly one reply for each [getpid], [stop] and [kill] that it
    reads, in the order of the requests, and no reply for anything else
    (an unknown string, or an object that is not a string). *)
Theorem pool_replies_to_known_commands_only self tr t inb :
  let w' := (start (mkWorld self tr t inb)).2 in
  recvs (trace w') = (recvs tr ++ served_prefix inb)%list
  ∧ sends (trace w')
    = (sends tr ++ ((λ m, (ctrl_url self, m))
                      <$> omap (reply_to self) (served_prefix inb)))%list
  ∧ (length (sends (trace w')) - length (sends tr)
     ≤ length (recvs (trace w')) - length (recvs tr))%nat.
Proof.
  intros w'. unfold w'.
  destruct (start_spec self tr t inb) as (evs & E & Hr & Hs & _).
  rewrite E. simpl.
  destruct (observe_spawns (handles self t)) as (_ & Hss & Hsr).
  change (tr ++ EvProcTitle "oq workerpool" :: ?l)%list
    with (tr ++ [EvProcTitle "oq workerpool"] ++ l)%list.
  rewrite !recvs_app, !sends_app, Hss, Hsr, Hr, Hs. simpl.
  rewrite !app_nil_r. split; [done|]. split; [done|].
  rewrite !length_app, length_fmap.
  pose proof (omap_length_le (reply_to self) (served_prefix inb)). lia.
Qed.

(** X7. The workers are signalled only by the command that ends the
    loop: every recorded worker gets SIGINT after [stop] or SIGTERM after
    [kill], once, and as long as neither command arrives no worker is
    signalled, whatever else arrives. *)
Theorem pool_signals_workers_on_exit_only self tr t inb :
  let w' := (start (mkWorld self tr t inb)).2 in
  kills (trace w')
  = (kills tr
     ++ match list.last (served_prefix inb) ≫= signal_of with
        | Some sig => (λ h, (sock_pid h, sig)) <$> handles self t
        | None => []
        end)%list
  ∧ (Forall nonterminal inb → kills (trace w') = kills tr).
Proof.
  intros w'. unfold w'.
  destruct (start_spec self tr t inb) as (evs & E & _ & _ & Hk).
  rewrite E. simpl.
  destruct (observe_spawns (handles self t)) as (Hsk & _ & _).
  change (tr ++ EvProcTitle "oq workerpool" :: ?l)%list
    with (tr ++ [EvProcTitle "oq workerpool"] ++ l)%list.
  rewrite !kills_app, Hsk, Hk.
  change (kills [EvProcTitle "oq workerpool"]) with (@nil (Z * signal)).
  rewrite !app_nil_r. split; [done|].
  intros Hnt. destruct (served_prefix_nonterminal inb Hnt) as [-> ->].
  by rewrite app_nil_r.
Qed.

End PoolCoverage.

(** ** The worker loop on any sequence of tasks *)

Section WorkerCoverage.
Import WorkerPool.

Lemma worker_loop_tasks tasks (w : world ()) :
  inbox w = task_message <$> tasks →
  for_socket serve w = (Block, advance w (tasks ≫= task_served) 0 []).
Proof.
  revert w. induction tasks as [|[[cmd args] mon] tasks IH]; intros w Hin.
  - rewrite for_socket_empty by done. simpl in Hin.
    replace (advance w ([] ≫= task_served) 0 []) with w; [done|].
    destruct w; simpl in *; subst. unfold advance. simpl.
    by rewrite app_nil_r, Nat.add_0_r.
  - erewrite worker_loop_task by exact Hin.
    rewrite IH by done. by rewrite advance_advance.
Qed.

(** X8. A worker that receives tasks pushes exactly one result for each
    task, in the order in which the tasks arrive, each to the [backurl]
    of the Monitor of its own task and through a socket of its own that
    is closed before the next task is read; the worker never returns, it
    waits for the next task. *)
Theorem worker_answers_every_task tasks (w : world ()) :
  inbox w = task_message <$> tasks →
  ∃ w',
    worker w = (Block, w')
    ∧ trace w'
      = (trace w ++ EvProcTitle "oq worker" :: (tasks ≫= task_served))%list
    ∧ sends (trace w') = (sends (trace w) ++ (result_push <$> tasks))%list
    ∧ opens (trace w')
      = (opens (trace w)
         ++ ((λ x, (backurl x.2, PUSH, connect_mode)) <$> tasks))%list
    ∧ closes (trace w')
      = (closes (trace w) ++ ((λ x, (backurl x.2, PUSH)) <$> tasks))%list
    ∧ inbox w' = [].
Proof.
  intros Hin. unfold worker.
  erewrite bind_ok by apply emit_advance.
  rewrite (worker_loop_tasks tasks) by (simpl; exact Hin).
  rewrite advance_advance. eexists. split; [reflexivity|].
  simpl. split; [done|].
  change (trace w ++ EvProcTitle "oq worker" :: ?l)%list
    with (trace w ++ [EvProcTitle "oq worker"] ++ l)%list.
  rewrite !sends_app, !opens_app, !closes_app. simpl.
  assert (Hobs : sends (tasks ≫= task_served) = result_push <$> tasks
          ∧ opens (tasks ≫= task_served)
            = (λ x, (backurl x.2, PUSH, connect_mode)) <$> tasks
          ∧ closes (tasks ≫= task_served)
            = (λ x, (backurl x.2, PUSH)) <$> tasks).
  { clear Hin. induction tasks as [|x tasks (IHs & IHo & IHc)]; [done|].
    rewrite bind_cons, sends_app, opens_app, closes_app, IHs, IHo, IHc.
    done. }
  destruct Hobs as (-> & -> & ->). done.
Qed.

End WorkerCoverage.

(** ** The submission generator beyond its expected run *)

Section StarmapCoverage.
Context `{Env}.
Import Starmap.

(** With [length msgs] results to come and these messages arriving, the
    next [length msgs] calls yield them, and the frame stays suspended
    inside both [with] blocks. *)
Lemma islice_results msgs rest tin rurl (w : world heap) :
  inbox w = (msgs ++ rest)%list →
  islice (length msgs) (Suspended (length msgs) tin rurl) w
  = (Ok (msgs, Suspended 0 tin rurl), advance w (EvRecv <$> msgs) 0 rest).
Proof.
  revert w. induction msgs as [|m msgs IH]; intros [h tr t inb] Hin;
    simpl in Hin; subst inb.
  - simpl. unfold ret, advance. simpl. by rewrite app_nil_r, Nat.add_0_r.
  - change (length (m :: msgs)) with (S (length msgs)).
    erewrite islice_S_some; [| apply next_suspended_S | by apply IH].
    unfold advance. simpl. by rewrite <- app_assoc.
Qed.

(** A frame that waits for more results than arrive reads what arrives
    and then blocks in the receive. *)
Lemma islice_suspended_starved n k tin rurl (w : world heap) :
  (length (inbox w) < n)%nat →
  (length (inbox w) < k)%nat →
  islice k (Suspended n tin rurl) w
  = (Block, advance w (EvRecv <$> inbox w) 0 []).
Proof.
  destruct w as [h tr t inb]. simpl.
  revert n k tr. induction inb as [|m inb IH]; intros n k tr Hn Hk.
  - destruct n as [|n]; [simpl in Hn; lia|].
    destruct k as [|k]; [simpl in Hk; lia|].
    cbn [islice]. erewrite bind_block by reflexivity.
    unfold advance. simpl. by rewrite app_nil_r, Nat.add_0_r.
  - destruct n as [|n]; [simpl in Hn; lia|].
    destruct k as [|k]; [simpl in Hk; lia|].
    simpl in Hn, Hk.
    erewrite islice_S_block;
      [reflexivity | apply next_suspended_S |].
    rewrite IH by lia. unfold advance. simpl.
    by rewrite <- app_assoc.
Qed.

Lemma closes_task_sent func sender ep h iterargs :
  closes (task_sent func sender ep h <$> iterargs) = [].
Proof. by induction iterargs. Qed.

Lemma closes_EvRecv msgs : closes (EvRecv <$> msgs) = [].
Proof. by induction msgs. Qed.

(** X9. When fewer results arrive than tasks were sent, a caller that
    asks for all of them is blocked for ever: the generator reads every
    result that arrives and then waits in the receive, there is no
    time-out, and neither socket is closed. *)
Theorem starmap_blocks_when_results_are_missing
    func iterargs tin rurl k (w : world heap) :
  (length (inbox w) < length iterargs)%nat →
  (S (length (inbox w)) < k)%nat →
  ∃ w',
    islice k (_starmap func iterargs tin rurl) w = (Block, w')
    ∧ recvs (trace w') = (recvs (trace w) ++ inbox w)%list
    ∧ closes (trace w') = closes (trace w)
    ∧ inbox w' = [].
Proof.
  intros Hn Hk. destruct k as [|k]; [lia|].
  destruct (next_created func iterargs tin rurl w) as (h' & E & _).
  eexists. split.
  - eapply islice_S_block; [exact E|].
    apply islice_suspended_starved; simpl; lia.
  - unfold advance. simpl.
    change (trace w ++ EvOpen rurl PULL bind_mode
              :: EvOpen tin PUSH connect_mode :: ?l)%list
      with (trace w ++ [EvOpen rurl PULL bind_mode;
                        EvOpen tin PUSH connect_mode] ++ l)%list.
    rewrite !recvs_app, !closes_app, recvs_task_sent, closes_task_sent,
      recvs_EvRecv, closes_EvRecv. simpl.
    by rewrite !app_nil_r.
Qed.

(** X10. The two sockets of a run stay open while the results are
    yielded: after the count and all [n] results the generator is still
    suspended inside its [with] blocks, and it is the call after the last
    result that closes the sender, then the receiver, and ends the
    generator; later calls do nothing. *)
Theorem starmap_sockets_closed_by_last_call
    func iterargs tin rurl (w : world heap) :
  let n := length iterargs in
  (n ≤ length (inbox w))%nat →
  ∃ w1 w2,
    islice (S n) (_starmap func iterargs tin rurl) w
    = (Ok (MInt (Z.of_nat n) :: take n (inbox w), Suspended 0 tin rurl), w1)
    ∧ closes (trace w1) = closes (trace w)
    ∧ next (Suspended 0 tin rurl) w1 = (Ok (None, Finished), w2)
    ∧ closes (trace w2)
      = (closes (trace w) ++ [(tin, PUSH); (rurl, PULL)])%list
    ∧ recvs (trace w2) = recvs (trace w1)
    ∧ next Finished w2 = (Ok (None, Finished), w2).
Proof.
  intros n Hn.
  destruct (next_created func iterargs tin rurl w) as (h' & E & _).
  fold n in E.
  assert (Hlen : length (take n (inbox w)) = n)
    by (rewrite length_take; lia).
  match type of E with
  | _ = (_, ?w0) =>
      pose proof (islice_results (take n (inbox w)) (drop n (inbox w))
                    tin rurl w0) as E2
  end.
  rewrite Hlen in E2. specialize (E2 (eq_sym (take_drop n (inbox w)))).
  eexists _, _. split; [eapply islice_S_some; [exact E | exact E2]|].
  split; [|split; [apply next_suspended_O|]].
  - unfold advance. simpl.
    change (trace w ++ EvOpen rurl PULL bind_mode
              :: EvOpen tin PUSH connect_mode :: ?l)%list
      with (trace w ++ [EvOpen rurl PULL bind_mode;
                        EvOpen tin PUSH connect_mode] ++ l)%list.
    rewrite !closes_app, closes_task_sent, closes_EvRecv. simpl.
    by rewrite !app_nil_r.
  - unfold advance. simpl.
    change (trace w ++ EvOpen rurl PULL bind_mode
              :: EvOpen tin PUSH connect_mode :: ?l)%list
      with (trace w ++ [EvOpen rurl PULL bind_mode;
                        EvOpen tin PUSH connect_mode] ++ l)%list.
    rewrite !closes_app, !recvs_app, closes_task_sent, closes_EvRecv.
    simpl. rewrite !app_nil_r. done.
Qed.

(** X11. Submitting changes nothing of the caller's Monitors but the
    [backurl] of those that end an argument tuple: every other attribute
    and every other Monitor is as before, and no answer is taken from the
    environment. *)
Theorem starmap_touches_backurl_only
    func iterargs tin rurl (w : world heap) :
  let w1 := (next (_starmap func iterargs tin rurl) w).2 in
  (∀ l, operation (objs w1 l) = operation (objs w l))
  ∧ (∀ l, l ∉ monitor <$> iterargs → objs w1 l = objs w l)
  ∧ (∀ l, l ∈ monitor <$> iterargs →
          objs w1 l = set_backurl (true_end_point rurl) (objs w l))
  ∧ ticks w1 = ticks w.
Proof.
  intros w1. unfold w1.
  destruct (next_created func iterargs tin rurl w) as (h' & E & Hh').
  rewrite E. simpl. split; [|split; [|split]].
  - intros l. rewrite Hh'. by case_bool_decide.
  - intros l Hl. rewrite Hh'. by rewrite bool_decide_eq_false_2.
  - intros l Hl. rewrite Hh'. by rewrite bool_decide_eq_true_2.
  - done.
Qed.

Lemma bind_fst {O1 O2 A B} (m1 : M O1 A) (m2 : M O2 A) (f : A → B) w1 w2 :
  (m1 w1).1 = (m2 w2).1 →
  (bind m1 (λ x, ret (f x)) w1).1 = (bind m2 (λ x, ret (f x)) w2).1.
Proof.
  unfold bind, ret. destruct (m1 w1) as [[a1|e1|] w1'],
    (m2 w2) as [[a2|e2|] w2']; simpl; congruence.
Qed.

(** What a suspended frame yields depends on the messages that arrive
    and on nothing else of the world. *)
Lemma islice_suspended_inbox k n tin rurl (w1 w2 : world heap) :
  inbox w1 = inbox w2 →
  (islice k (Suspended n tin rurl) w1).1
  = (islice k (Suspended n tin rurl) w2).1.
Proof.
  revert n w1 w2. induction k as [|k IH]; intros n w1 w2 Hin; [done|].
  destruct n as [|n].
  - by rewrite !(islice_S_none _ _ _ _ _ (next_suspended_O _ _ _)).
  - destruct w1 as [h1 tr1 t1 inb1], w2 as [h2 tr2 t2 inb2].
    simpl in Hin. subst inb2. destruct inb1 as [|m inb].
    + cbn [islice]. erewrite bind_block by reflexivity. symmetry.
      by erewrite bind_block by reflexivity.
    + cbn [islice]. erewrite bind_ok by apply next_suspended_S. symmetry.
      erewrite bind_ok by apply next_suspended_S. symmetry.
      cbv beta iota. apply bind_fst. by apply IH.
Qed.

(** X12. The results that a run yields are not tied to the tasks it
    sent: two runs that send the same number of tasks and to which the
    same messages arrive yield the same values, whatever the callables,
    the arguments and the Monitors are. *)
Theorem starmap_results_depend_on_count_only
    func1 func2 iterargs1 iterargs2 tin rurl k (w1 w2 : world heap) :
  length iterargs1 = length iterargs2 →
  inbox w1 = inbox w2 →
  yielded (islice k (_starmap func1 iterargs1 tin rurl) w1).1
  = yielded (islice k (_starmap func2 iterargs2 tin rurl) w2).1.
Proof.
  intros Hlen Hin. destruct k as [|k]; [done|].
  destruct (next_created func1 iterargs1 tin rurl w1) as (h1 & E1 & _).
  destruct (next_created func2 iterargs2 tin rurl w2) as (h2 & E2 & _).
  cbn [islice]. rewrite (bind_ok _ _ _ _ _ E1), (bind_ok _ _ _ _ _ E2).
  cbv beta iota. rewrite Hlen. f_equal. apply bind_fst.
  by apply islice_suspended_inbox.
Qed.

End StarmapCoverage.

(** ** The entry point, and a pool launched by a master *)

Section EntryPoint.
Context `{Env}.

Lemma served_prefix_app pre m rest :
  Forall WorkerPool.nonterminal pre →
  terminal m = true →
  served_prefix (pre ++ m :: rest) = (pre ++ [m])%list.
Proof.
  intros Hpre Hm. induction Hpre as [|x pre Hx _ IH].
  - simpl. by rewrite Hm.
  - simpl. rewrite (proj2 (terminal_false x) Hx). by rewrite IH.
Qed.

(** X13. The entry point does nothing on bad arguments: when it is not
    given exactly three arguments, or when the number of workers is
    neither ["-1"] nor an integer, it raises [ValueError] before it sets
    the process title, starts a worker or reads a command. *)
Theorem main_rejects_bad_arguments args tr t inb :
  length args ≠ 3%nat
  ∨ (∃ a b c, args = [a; b; c] ∧ c ≠ "-1" ∧ py_int c = None) →
  main args tr t inb = (Raise ValueError, mkWorld None tr t inb).
Proof.
  intros [Hlen|(a & b & c & -> & Hc & Hint)].
  - destruct args as [|a [|b [|c [|d args]]]]; try done.
  - unfold main, WorkerPool.__init__.
    by rewrite bool_decide_eq_false_2, Hint.
Qed.

(** X14. A master and the pool it launches agree on the control url:
    the three arguments that end the command line of [start()] make the
    entry point construct a pool which, told to [stop], sends its
    confirmation from the url [tcp://host:port] to which [stop()] and
    [kill()] of that master connect, and names that url in it. *)
Theorem launched_pool_answers_at_master_url
    (self : WorkerMaster.master) hc pre rest tr t :
  Forall WorkerPool.nonterminal pre →
  hc.2 = "-1" ∨ is_Some (py_int hc.2) →
  let u := WorkerMaster.ctrl_url_of self hc.1 in
  let args := [u; WorkerMaster.task_out_url self; hc.2] in
  ∃ prefix w',
    launch_argv self hc
    = (prefix ++ ["-m"; "openquake.baselib.workerpool"] ++ args)%list
    ∧ main args tr t (pre ++ MStr "stop" :: rest) = (Ok (), w')
    ∧ list.last (sends (trace w'))
      = Some (u, MStr ("WorkerPool " +:+ u +:+ " stopped"))
    ∧ inbox w' = rest.
Proof.
  intros Hpre Hcores u args.
  assert (∃ self', WorkerPool.__init__ u (WorkerMaster.task_out_url self) hc.2
                   = Ok self' ∧ WorkerPool.ctrl_url self' = u)
    as (self' & Hinit & Hu).
  { unfold WorkerPool.__init__. case_bool_decide as Hm1.
    - by eexists.
    - destruct Hcores as [?|[n Hn]]; [done|]. rewrite Hn. by eexists. }
  destruct (start_spec self' tr t (pre ++ MStr "stop" :: rest))
    as (evs & E & _ & Hs & _).
  rewrite (served_prefix_app pre (MStr "stop") rest Hpre eq_refl) in E, Hs.
  exists (if bool_decide (hc.1 = "127.0.0.1") then [sys_executable]
          else ["ssh"; hc.1; WorkerMaster.remote_python self]).
  eexists. split; [|split; [|split]].
  - unfold launch_argv. by case_bool_decide.
  - unfold main, args. rewrite Hinit, E. simpl.
    rewrite existsb_app. simpl. rewrite orb_true_r. reflexivity.
  - simpl. rewrite sends_app, Hs, omap_app, fmap_app. simpl.
    rewrite app_assoc, last_snoc. unfold WorkerPool.confirmation.
    by rewrite Hu.
  - simpl. rewrite length_app. simpl.
    by rewrite drop_app_add.
Qed.

End EntryPoint.

(** ** The size computations of the event based calculator *)

Section EventBasedFacts.
Import EventBased.

(** X15. [check_overflow] accepts a calculation exactly when it has at
    most 65536 sites, at most 4294967296 events and at most 256 intensity
    measure types, the limits included; a datastore without the dataset
    of the events counts as having no event; and the only failure is a
    [ValueError]. *)
Theorem check_overflow_accepts_up_to_the_limits events_dset nsites nimts :
  (check_overflow events_dset nsites nimts = Done ()
   ↔ Z.of_nat nsites ≤ 65536
     ∧ Z.of_nat (default 0%nat events_dset) ≤ 4294967296
     ∧ Z.of_nat nimts ≤ 256)
  ∧ (∀ f, check_overflow events_dset nsites nimts = Fail f →
          ∃ msg, f = ValueError msg).
Proof.
  unfold check_overflow, max_. cbn [check_vars].
  assert (He : (match events_dset with
                | Some n => Z.of_nat n
                | None => 0
                end) = Z.of_nat (default 0%nat events_dset))
    by (by destruct events_dset).
  rewrite He.
  change (getitem [("sites", ?a); ("events", ?b); ("imts", ?c)] "sites")
    with (Done a).
  change (getitem [("sites", ?a); ("events", ?b); ("imts", ?c)] "events")
    with (Done b).
  change (getitem [("sites", ?a); ("events", ?b); ("imts", ?c)] "imts")
    with (Done c).
  change (2 ^ 16) with 65536. change (2 ^ 32) with 4294967296.
  change (2 ^ 8) with 256.
  split.
  - repeat case_bool_decide; split; intros; try done; try lia.
  - intros f. repeat case_bool_decide; intros [= <-]; by eexists.
Qed.

Section MaxGmfSizeFacts.
Variable get_array : list event_rec → Z → list event_rec.

Lemma sum_list_scale {A} (f : A → nat) (a : nat) (l : list A) :
  sum_list ((λ x, a * f x)%nat <$> l) = (a * sum_list (f <$> l))%nat.
Proof. induction l as [|x l IH]; csimpl; [lia|]. rewrite IH. lia. Qed.

Lemma add_rlzs_spec nsids l r rlzs n :
  (r + length rlzs ≤ length l)%nat →
  add_rlzs nsids l r rlzs n
  = Done (n + nsids * sum_list (take (length rlzs) (drop r l)))%nat.
Proof.
  revert r n. induction rlzs as [|rlzi rlzs IH]; intros r n Hlen.
  - simpl. f_equal. lia.
  - simpl in Hlen. cbn [add_rlzs].
    destruct (lookup_lt_is_Some_2 l r) as [k Hk]; [lia|].
    rewrite Hk, IH by lia.
    rewrite (drop_S l k r Hk). simpl. f_equal. lia.
Qed.

Lemma len_eids_length samples sample ebr rlzs :
  length (len_eids get_array samples sample ebr rlzs) = length rlzs.
Proof.
  unfold len_eids. case_bool_decide.
  - by rewrite length_fmap, length_seq.
  - by rewrite length_replicate.
Qed.

Lemma add_ruptures_spec samples sample rlzs ebrs n :
  add_ruptures get_array samples sample rlzs ebrs n
  = Done (n + sum_list
                ((λ ebr, length (sids ebr)
                         * sum_list (len_eids get_array samples sample
                                       ebr rlzs))%nat <$> ebrs))%nat.
Proof.
  revert n. induction ebrs as [|ebr ebrs IH]; intros n.
  - simpl. f_equal. lia.
  - cbn [add_ruptures]. rewrite add_rlzs_spec
      by (rewrite len_eids_length; lia).
    rewrite IH. rewrite drop_0, take_ge by (rewrite len_eids_length; lia).
    csimpl. f_equal. lia.
Qed.

Lemma add_gsims_total samples ebrs items sample n :
  ∃ n', add_gsims get_array samples ebrs items sample n = Done n'.
Proof.
  revert sample n. induction items as [|[gsim rlzs] items IH];
    intros sample n; [by eexists|].
  cbn [add_gsims]. rewrite add_ruptures_spec. apply IH.
Qed.

Lemma sum_replicate k x : sum_list (replicate k x) = (k * x)%nat.
Proof. induction k as [|k IH]; simpl; [done|]. rewrite IH. lia. Qed.

Lemma sum_app (l k : list nat) :
  sum_list (l ++ k) = (sum_list l + sum_list k)%nat.
Proof. induction l as [|x l IH]; simpl; [done|]. rewrite IH. lia. Qed.

Lemma add_gsims_full samples ebrs items sample n :
  ¬ samples > 1 →
  add_gsims get_array samples ebrs items sample n
  = Done (n + sum_list ((λ it, length it.2) <$> items)
              * sum_list (rupture_rows <$> ebrs))%nat.
Proof.
  intros Hfull. revert sample n.
  induction items as [|[gsim rlzs] items IH]; intros sample n.
  - simpl. f_equal. lia.
  - cbn [add_gsims]. rewrite add_ruptures_spec, IH.
    f_equal. csimpl.
    assert (Hrow : sum_list
              ((λ ebr, length (sids ebr)
                       * sum_list (len_eids get_array samples sample
                                     ebr rlzs))%nat <$> ebrs)
            = (length rlzs * sum_list (rupture_rows <$> ebrs))%nat).
    { rewrite <- sum_list_scale. f_equal. apply list_fmap_ext.
      intros _ ebr _. unfold len_eids, rupture_rows.
      rewrite bool_decide_eq_false_2 by done.
      rewrite sum_replicate. lia. }
    rewrite Hrow. lia.
Qed.

(** X16. When every group of ruptures has at most one sample (the logic
    tree is enumerated in full), the size estimate is the size of a row,
    [14 + 4 * num_imts] bytes, times the number of rows: for each group,
    the number of its realizations times the sum over its ruptures of
    sites times events. *)
Theorem max_gmf_size_full_enumeration
    ruptures_by_grp get_rlzs_by_gsim samples_by_grp num_imts :
  (∀ g ebrs, (g, ebrs) ∈ ruptures_by_grp →
     ∃ samples, samples_by_grp g = Some samples ∧ samples ≤ 1) →
  max_gmf_size get_array ruptures_by_grp get_rlzs_by_gsim samples_by_grp
    num_imts
  = Done (sum_list
            ((λ ge, sum_list ((λ it, length it.2) <$> get_rlzs_by_gsim ge.1)
                    * sum_list (rupture_rows <$> ge.2))%nat
               <$> ruptures_by_grp)
          * (14 + 4 * num_imts))%nat.
Proof.
  intros Hfull. unfold max_gmf_size.
  assert (Hgroups : ∀ n,
    add_groups get_array ruptures_by_grp get_rlzs_by_gsim samples_by_grp n
    = Done (n + sum_list
              ((λ ge, sum_list ((λ it, length it.2)
                                  <$> get_rlzs_by_gsim ge.1)
                      * sum_list (rupture_rows <$> ge.2))%nat
                 <$> ruptures_by_grp))%nat).
  { induction ruptures_by_grp as [|[g ebrs] rest IH]; intros n.
    - simpl. f_equal. lia.
    - cbn [add_groups].
      destruct (Hfull g ebrs) as (samples & -> & Hs);
        [apply list_elem_of_here|].
      rewrite add_gsims_full by lia. rewrite IH.
      + f_equal. csimpl. lia.
      + intros g' ebrs' Hin. apply (Hfull g' ebrs').
        by apply list_elem_of_further. }
  rewrite Hgroups. f_equal.
Qed.

(** X17. The size estimate can fail in one way only: it raises
    [KeyError] exactly when a group of ruptures has no entry in
    [samples_by_grp]; the index into [len_eids] is always in range. *)
Theorem max_gmf_size_fails_on_missing_samples_only
    ruptures_by_grp get_rlzs_by_gsim samples_by_grp num_imts :
  let result :=
    max_gmf_size get_array ruptures_by_grp get_rlzs_by_gsim samples_by_grp
      num_imts in
  (result = Fail KeyError
   ↔ ∃ g, g ∈ ruptures_by_grp.*1 ∧ samples_by_grp g = None)
  ∧ (∀ f, result = Fail f → f = KeyError).
Proof.
  intros result. unfold result, max_gmf_size.
  assert (Hgroups : ∀ n,
    (∃ n', add_groups get_array ruptures_by_grp get_rlzs_by_gsim
             samples_by_grp n = Done n'
           ∧ ∀ g, g ∈ ruptures_by_grp.*1 → is_Some (samples_by_grp g))
    ∨ (add_groups get_array ruptures_by_grp get_rlzs_by_gsim
         samples_by_grp n = Fail KeyError
       ∧ ∃ g, g ∈ ruptures_by_grp.*1 ∧ samples_by_grp g = None)).
  { induction ruptures_by_grp as [|[g ebrs] rest IH]; intros n.
    - left. eexists. split; [done|]. intros g Hg.
      by apply elem_of_nil in Hg.
    - cbn [add_groups]. destruct (samples_by_grp g) as [samples|] eqn:Hg.
      + destruct (add_gsims_total samples ebrs (get_rlzs_by_gsim g) 0 n)
          as [n' ->].
        destruct (IH n') as [(n'' & E & Hall)|(E & g' & Hg' & Hnone)].
        * left. exists n''. split; [done|].
          intros g' [Heq|Hin]%elem_of_cons; [|by apply Hall].
          simpl in Heq. subst g'. by eexists.
        * right. split; [done|]. exists g'.
          split; [by apply list_elem_of_further | done].
      + right. split; [done|]. exists g.
        split; [apply list_elem_of_here | done]. }
  destruct (Hgroups 0%nat) as [(n' & -> & Hall)|(-> & Hex)].
  - split; [|done]. split; [done|].
    intros (g & Hg & Hnone). destruct (Hall g Hg) as [s Hs]. congruence.
  - split; [done|]. by intros f [= <-].
Qed.

Lemma sum_list_fmap_add {A} (f g : A → nat) (l : list A) :
  (sum_list (f <$> l) + sum_list (g <$> l))%nat
  = sum_list ((λ x, f x + g x)%nat <$> l).
Proof. induction l as [|x l IH]; csimpl; [done|]. rewrite <- IH. lia. Qed.

Lemma add_gsims_sampled samples ebrs items sample n :
  samples > 1 →
  add_gsims get_array samples ebrs items sample n
  = Done (n + sum_list
                ((λ ebr,
                    length (sids ebr)
                    * sum_list
                        ((λ s, length (get_array (events ebr) (Z.of_nat s)))
                           <$> seq sample
                                 (sum_list ((λ it, length it.2) <$> items))))
                   %nat <$> ebrs))%nat.
Proof.
  intros Hs. revert sample n.
  induction items as [|[gsim rlzs] items IH]; intros sample n.
  - csimpl. f_equal.
    assert (Hz : sum_list ((λ ebr : EBRupture,
                   length (sids ebr) * 0)%nat <$> ebrs) = 0%nat).
    { induction ebrs as [|e l IHl]; csimpl; [done|]. rewrite IHl. lia. }
    rewrite Hz. lia.
  - cbn [add_gsims]. rewrite add_ruptures_spec, IH.
    f_equal. rewrite <- Nat.add_assoc. f_equal.
    rewrite sum_list_fmap_add. f_equal. apply list_fmap_ext.
    intros _ ebr _. csimpl. unfold len_eids.
    rewrite bool_decide_eq_true_2 by done.
    rewrite seq_app, fmap_app, sum_app. lia.
Qed.

(** X18. When every group of ruptures is sampled (more than one
    sample), the size estimate counts, for a rupture of a group with [R]
    realizations, the events that [get_array] selects for each of the
    samples [0, ..., R - 1] once, times the number of its sites: the
    sample numbers run on from one GSIM of the group to the next. *)
Theorem max_gmf_size_sampling
    ruptures_by_grp get_rlzs_by_gsim samples_by_grp num_imts :
  (∀ g ebrs, (g, ebrs) ∈ ruptures_by_grp →
     ∃ samples, samples_by_grp g = Some samples ∧ samples > 1) →
  max_gmf_size get_array ruptures_by_grp get_rlzs_by_gsim samples_by_grp
    num_imts
  = Done (sum_list
            ((λ ge,
                let R := sum_list ((λ it, length it.2)
                                     <$> get_rlzs_by_gsim ge.1) in
                sum_list
                  ((λ ebr,
                      length (sids ebr)
                      * sum_list
                          ((λ s, length (get_array (events ebr)
                                           (Z.of_nat s)))
                             <$> seq 0 R))%nat <$> ge.2))
               <$> ruptures_by_grp)
          * (14 + 4 * num_imts))%nat.
Proof.
  intros Hsampled. unfold max_gmf_size.
  assert (Hgroups : ∀ n,
    add_groups get_array ruptures_by_grp get_rlzs_by_gsim samples_by_grp n
    = Done (n + sum_list
            ((λ ge,
                let R := sum_list ((λ it, length it.2)
                                     <$> get_rlzs_by_gsim ge.1) in
                sum_list
                  ((λ ebr,
                      length (sids ebr)
                      * sum_list
                          ((λ s, length (get_array (events ebr)
                                           (Z.of_nat s)))
                             <$> seq 0 R))%nat <$> ge.2))
               <$> ruptures_by_grp))%nat).
  { induction ruptures_by_grp as [|[g ebrs] rest IH]; intros n.
    - simpl. f_equal. lia.
    - cbn [add_groups].
      destruct (Hsampled g ebrs) as (samples & -> & Hs);
        [apply list_elem_of_here|].
      rewrite add_gsims_sampled by lia. rewrite IH.
      + f_equal. csimpl. lia.
      + intros g' ebrs' Hin. apply (Hsampled g' ebrs').
        by apply list_elem_of_further. }
  rewrite Hgroups. f_equal.
Qed.

End MaxGmfSizeFacts.

End EventBasedFacts.

(** ** The ground motion values that the engine collects *)

Section EngineCoreFacts.
Import EngineCore.
Context {I G : Type} `{EqDecision I}.
Variable compute : @RuptureData → Z → list ((string * I) * list G).

Lemma with_key_cons k (t : string * I * Z * Z * G) ts :
  with_key k (t :: ts)
  = if decide (key_of t = k) then t :: with_key k ts else with_key k ts.
Proof. unfold with_key. by rewrite filter_cons. Qed.

Lemma with_key_app k (ts1 ts2 : list (string * I * Z * Z * G)) :
  with_key k (ts1 ++ ts2) = (with_key k ts1 ++ with_key k ts2)%list.
Proof. unfold with_key. by rewrite list.filter_app. Qed.

Lemma foldl_store_spec (self : @GmfCalculator I G) ts k :
  gmvs_per_site (foldl store self ts) k
  = (gmvs_per_site self k ++ (snd <$> with_key k ts))%list
  ∧ ruptures_per_site (foldl store self ts) k
    = (ruptures_per_site self k ++ ((λ t, t.1.2) <$> with_key k ts))%list.
Proof.
  revert self. induction ts as [|t ts IH]; intros self.
  - simpl. by rewrite !app_nil_r.
  - cbn [foldl]. destruct (IH (store self t)) as [-> ->].
    rewrite with_key_cons. unfold store, dd_append. cbn [gmvs_per_site
      ruptures_per_site]. fold (key_of t).
    destruct (decide (key_of t = k)) as [<-|Hne].
    + unfold insert, fn_insert. rewrite !decide_True by done.
      rewrite !fmap_cons, <- !app_assoc. done.
    + unfold insert, fn_insert. by rewrite !decide_False by done.
Qed.

(** X19. [calc_gmfs] appends to the two dictionaries, under each key
    [(gsim_name, imt, site_id)], the values and the rupture ids of the
    tuples of that key in the order in which [calc_gmf] yields them; so
    the two lists of a key grow together: lists of the same length stay
    of the same length, the i-th rupture id being the rupture of the i-th
    value. *)
Theorem calc_gmfs_keeps_values_and_ruptures_aligned
    (self : @GmfCalculator I G) rupture_data k :
  let self' := calc_gmfs compute self rupture_data in
  let yielded := rupture_data ≫= calc_gmf compute in
  gmvs_per_site self' k
  = (gmvs_per_site self k ++ (snd <$> with_key k yielded))%list
  ∧ ruptures_per_site self' k
    = (ruptures_per_site self k
       ++ ((λ t, t.1.2) <$> with_key k yielded))%list
  ∧ (length (gmvs_per_site self k) = length (ruptures_per_site self k) →
     length (gmvs_per_site self' k) = length (ruptures_per_site self' k))
  ∧ (gmvs_per_site self k = [] → ruptures_per_site self k = [] →
     zip (ruptures_per_site self' k) (gmvs_per_site self' k)
     = (λ t, (t.1.2, t.2)) <$> with_key k yielded).
Proof.
  intros self' yielded.
  assert (Happ : gmvs_per_site self' k
    = (gmvs_per_site self k ++ (snd <$> with_key k yielded))%list
    ∧ ruptures_per_site self' k
      = (ruptures_per_site self k
         ++ ((λ t, t.1.2) <$> with_key k yielded))%list).
  { unfold self', yielded, calc_gmfs. clear self' yielded. revert self.
    induction rupture_data as [|rdata rds IH]; intros self.
    - simpl. by rewrite !app_nil_r.
    - cbn [foldl]. destruct (IH (foldl store self (calc_gmf compute rdata)))
        as [-> ->].
      destruct (foldl_store_spec self (calc_gmf compute rdata) k)
        as [-> ->].
      rewrite bind_cons, with_key_app, !fmap_app, <- !app_assoc. done. }
  destruct Happ as [Hg Hr]. split; [done|]. split; [done|]. split.
  - intros Hlen. rewrite Hg, Hr, !length_app, !length_fmap. lia.
  - intros Hg0 Hr0. rewrite Hg, Hr, Hg0, Hr0. simpl.
    clear. induction (with_key k yielded) as [|t ts IHts]; [done|].
    rewrite !fmap_cons. simpl. by rewrite IHts.
Qed.

(** X20. Every tuple that [calc_gmf] yields is for a site of the rupture
    and for a rupture id of its pairs, and their number is, summed over
    the pairs and over the items that the computer returns for the seed,
    the smaller of the number of sites and the number of values: values
    beyond the sites, or sites beyond the values, are dropped without
    notice. *)
Theorem calc_gmf_yields_per_site_and_rupture (rdata : @RuptureData) :
  length (calc_gmf compute rdata)
  = sum_list
      ((λ rs, sum_list
                ((λ item, Nat.min (length (r_sites_sids rdata))
                                  (length item.2))
                   <$> compute rdata rs.2))
         <$> rupid_seed_pairs rdata)
  ∧ ∀ t, t ∈ calc_gmf compute rdata →
      t.1.1.2 ∈ r_sites_sids rdata
      ∧ t.1.2 ∈ (rupid_seed_pairs rdata).*1.
Proof.
  unfold calc_gmf. split.
  - induction (rupid_seed_pairs rdata) as [|rs pairs IH]; [done|].
    rewrite bind_cons, length_app, fmap_cons, IH. simpl. f_equal.
    induction (compute rdata rs.2) as [|item items IHi]; [done|].
    rewrite bind_cons, length_app, fmap_cons, IHi. simpl. f_equal.
    by rewrite length_fmap, length_zip.
  - intros t Ht.
    apply list_elem_of_bind in Ht as (rs & Ht & Hrs).
    apply list_elem_of_bind in Ht as (item & Ht & Hitem).
    apply list_elem_of_fmap in Ht as ([sid gmv] & -> & Hz). simpl. split.
    + by apply elem_of_zip_l in Hz.
    + apply list_elem_of_fmap. by exists rs.
Qed.

End EngineCoreFacts.

(** * The further properties at concrete inputs *)

Section MoreSamples.
Local Existing Instance sample_env.

(** Asked about every host, the sample master reports both in the
    configured order; asked about the local host, it probes that host
    alone, and closes the socket of the failed attempt. *)
Lemma master_status_probes_each_host_witness :
  WorkerMaster.status sample_master None (mkWorld () [] 0 [])
  = (Ok [("node1", "running"); ("127.0.0.1", "not-running")],
     mkWorld () [EvTcpSocket; EvConnectEx "node1" 1909 0; EvTcpClose;
                 EvTcpSocket; EvConnectEx "127.0.0.1" 1909 111; EvTcpClose]
       2 [])
  ∧ WorkerMaster.status sample_master (Some "127.0.0.1") (mkWorld () [] 0 [])
    = (Ok [("127.0.0.1", "not-running")],
       mkWorld () [EvTcpSocket; EvConnectEx "127.0.0.1" 1909 111; EvTcpClose]
         1 []).
Proof.
  split.
  - exact (proj1 (master_status_probes_each_host sample_master None
                    (mkWorld () [] 0 []))).
  - exact (proj1 (master_status_probes_each_host sample_master
                    (Some "127.0.0.1") (mkWorld () [] 0 []))).
Defined.

(** The host [node9] is not configured: its status is the empty list. *)
Lemma master_status_unknown_host_witness :
  WorkerMaster.status sample_master (Some "node9") (mkWorld () [] 0 [])
  = (Ok [], mkWorld () [] 0 []).
Proof.
  apply (master_status_unknown_host sample_master "node9").
  intros Hin. repeat (apply elem_of_cons in Hin as [Hin|Hin]; [done|]).
  by apply elem_of_nil in Hin.
Defined.

(** Three tasks get three results, the second a failure, each at the
    address that its Monitor names. *)
Lemma worker_answers_every_task_witness :
  ∃ w',
    WorkerPool.worker (mkWorld () [] 0 (task_message <$> sample_tasks))
    = (Block, w')
    ∧ sends (trace w')
      = [("tcp://10.0.0.1:1912", MResult (Success (VInt 3)));
         ("tcp://10.0.0.1:1912",
          MResult (Failure "ValueError" "no such source" "fail"));
         ("tcp://10.0.0.1:1913", MResult (Success (VInt 7)))].
Proof.
  destruct (worker_answers_every_task sample_tasks
              (mkWorld () [] 0 (task_message <$> sample_tasks)))
    as (w' & E & _ & Hs & _); [reflexivity|].
  exists w'. split; [exact E | exact Hs].
Defined.

(** Two tasks are sent and one result arrives: the caller is blocked. *)
Lemma starmap_blocks_when_results_are_missing_witness :
  ∃ w',
    Starmap.islice 4
      (Starmap._starmap sample_add sample_iterargs
         "tcp://10.0.0.1:1907" "tcp://10.0.0.1:1912-1920")
      sample_starved
    = (Block, w')
    ∧ recvs (trace w') = [MResult (Success (VInt 3))]
    ∧ closes (trace w') = [].
Proof.
  destruct (starmap_blocks_when_results_are_missing sample_add
              sample_iterargs "tcp://10.0.0.1:1907"
              "tcp://10.0.0.1:1912-1920" 4 sample_starved)
    as (w' & E & Hr & Hc & _); [simpl; lia | simpl; lia |].
  exists w'. split; [exact E|]. split; [exact Hr | exact Hc].
Defined.

(** After the count and both results the sockets are still open; the
    fourth call closes them. *)
Lemma starmap_sockets_closed_by_last_call_witness :
  ∃ w1 w2,
    Starmap.islice 3
      (Starmap._starmap sample_add sample_iterargs
         "tcp://10.0.0.1:1907" "tcp://10.0.0.1:1912-1920")
      sample_submitter
    = (Ok ([MInt 2; MResult (Success (VInt 7)); MResult (Success (VInt 3))],
           Starmap.Suspended 0 "tcp://10.0.0.1:1907"
             "tcp://10.0.0.1:1912-1920"), w1)
    ∧ closes (trace w1) = []
    ∧ Starmap.next
        (Starmap.Suspended 0 "tcp://10.0.0.1:1907" "tcp://10.0.0.1:1912-1920")
        w1
      = (Ok (None, Starmap.Finished), w2)
    ∧ closes (trace w2)
      = [("tcp://10.0.0.1:1907", PUSH); ("tcp://10.0.0.1:1912-1920", PULL)].
Proof.
  destruct (starmap_sockets_closed_by_last_call sample_add sample_iterargs
              "tcp://10.0.0.1:1907" "tcp://10.0.0.1:1912-1920"
              sample_submitter)
    as (w1 & w2 & E & Hc1 & En & Hc2 & _); [simpl; lia|].
  exists w1, w2. split; [exact E|]. split; [exact Hc1|].
  split; [exact En | exact Hc2].
Defined.

(** Two failing tasks without arguments, submitted instead of the two
    additions, give the caller the same values. *)
Lemma starmap_results_depend_on_count_only_witness :
  yielded (Starmap.islice 4
             (Starmap._starmap sample_add sample_iterargs
                "tcp://10.0.0.1:1907" "tcp://10.0.0.1:1912-1920")
             sample_submitter).1
  = yielded (Starmap.islice 4
               (Starmap._starmap sample_fail
                  [mkArgs [] 5%nat; mkArgs [] 6%nat]
                  "tcp://10.0.0.1:1907" "tcp://10.0.0.1:1912-1920")
               sample_submitter).1.
Proof.
  apply (starmap_results_depend_on_count_only sample_add sample_fail
           sample_iterargs [mkArgs [] 5%nat; mkArgs [] 6%nat]);
    reflexivity.
Defined.

(** Two arguments instead of three, and a number of workers that is no
    number. *)
Lemma main_rejects_bad_arguments_witness :
  main ["tcp://0.0.0.0:1909"; "tcp://10.0.0.1:1908"] [] 0 [MStr "stop"]
  = (Raise ValueError, mkWorld None [] 0 [MStr "stop"])
  ∧ main ["tcp://0.0.0.0:1909"; "tcp://10.0.0.1:1908"; "four"] [] 0
      [MStr "stop"]
    = (Raise ValueError, mkWorld None [] 0 [MStr "stop"]).
Proof.
  split.
  - apply main_rejects_bad_arguments. left. simpl. lia.
  - apply main_rejects_bad_arguments. right.
    exists "tcp://0.0.0.0:1909", "tcp://10.0.0.1:1908", "four".
    split; [reflexivity|]. split; [done | reflexivity].
Defined.

(** The pool that the sample master launches on the local host answers
    at [tcp://127.0.0.1:1909]. *)
Lemma launched_pool_answers_at_master_url_witness :
  ∃ w',
    main ["tcp://127.0.0.1:1909"; "tcp://10.0.0.1:1908"; "2"] [] 0
      [MStr "getpid"; MStr "stop"]
    = (Ok (), w')
    ∧ list.last (sends (trace w'))
      = Some ("tcp://127.0.0.1:1909",
              MStr "WorkerPool tcp://127.0.0.1:1909 stopped").
Proof.
  destruct (launched_pool_answers_at_master_url sample_master
              ("127.0.0.1", "2") [MStr "getpid"] [] [] 0)
    as (prefix & w' & _ & E & Hl & _).
  - repeat constructor.
  - right. by eexists.
  - exists w'. split; [exact E | exact Hl].
Defined.

(** Full enumeration: three realizations, and 3 * 2 + 1 * 3 = 9 rows of
    the two ruptures, at 14 + 4 * 2 bytes a row. *)
Lemma max_gmf_size_full_enumeration_witness :
  EventBased.max_gmf_size sample_get_array sample_ruptures
    sample_rlzs_by_gsim (λ g, if bool_decide (g = 0) then Some 1 else None) 2
  = EventBased.Done 594%nat.
Proof.
  apply (max_gmf_size_full_enumeration sample_get_array sample_ruptures
           sample_rlzs_by_gsim
           (λ g, if bool_decide (g = 0) then Some 1 else None) 2).
  intros g ebrs Hin. apply list_elem_of_singleton in Hin.
  injection Hin as -> ->. exists 1. split; [reflexivity | lia].
Defined.

(** Sampling: the first rupture has one event in each of the samples 0
    and 1, the second two events in sample 2 and one in sample 0. *)
Lemma max_gmf_size_sampling_witness :
  EventBased.max_gmf_size sample_get_array sample_ruptures
    sample_rlzs_by_gsim (λ g, if bool_decide (g = 0) then Some 3 else None) 2
  = EventBased.Done 198%nat.
Proof.
  apply (max_gmf_size_sampling sample_get_array sample_ruptures
           sample_rlzs_by_gsim
           (λ g, if bool_decide (g = 0) then Some 3 else None) 2).
  intros g ebrs Hin. apply list_elem_of_singleton in Hin.
  injection Hin as -> ->. exists 3. split; [reflexivity | lia].
Defined.

End MoreSamples.
